(** * GEOLib: the D-Stability serializers and the D-Foundations internal model

    A shallow embedding of
    - [geolib/models/dstability/serializer.py]: [DStabilityBaseSerializer],
      [DStabilityInputSerializer] and [DStabilityInputZipSerializer];
    - [geolib/models/dfoundations/internal.py]: [SoilCollection], [Profiles],
      [CPTList], [CalculationOptions], [CalculationType],
      [DFoundationsInputStructure] and [DFoundationsNenPileResults].

    Python dictionaries keep insertion order, so they are association lists
    with in-place replacement ([PyDict]).  Mutable objects that the code
    shares by reference (profiles, CPTs, lists of soils) live in explicit
    stores.  A call either returns or raises ([result]).

    The first part holds the model, the second part its properties. *)

From Stdlib Require Import Ascii String ZArith QArith.
From stdpp Require Import base strings pretty functions list.

Local Open Scope string_scope.
Local Open Scope list_scope.
Local Open Scope nat_scope.

(** * Part I: the model *)

(** ** Strings *)

Module Str.

(** [s.startswith(p)] *)
Fixpoint startswith (p s : string) : bool :=
  match p, s with
  | EmptyString, _ => true
  | String a p', String b s' => if decide (a = b) then startswith p' s' else false
  | String _ _, EmptyString => false
  end.

(** [s[n:]] *)
Fixpoint drop (n : nat) (s : string) : string :=
  match n, s with
  | 0, _ => s
  | S n', String _ s' => drop n' s'
  | S _, EmptyString => EmptyString
  end.

(** [s[-1]]; [None] stands for the [IndexError] on the empty string. *)
Fixpoint last (s : string) : option ascii :=
  match s with
  | EmptyString => None
  | String a EmptyString => Some a
  | String _ s' => last s'
  end.

(** [s.replace(old, new)] for a non-empty [old]: the occurrences of [old]
    are replaced from left to right and do not overlap.  [skip] counts the
    characters of an occurrence that are still to be dropped. *)
Fixpoint replace_from (old new : string) (skip : nat) (s : string) : string :=
  match s with
  | EmptyString => EmptyString
  | String c s' =>
      match skip with
      | S k => replace_from old new k s'
      | 0 =>
          if startswith old s
          then new +:+ replace_from old new (String.length old - 1) s'
          else String c (replace_from old new 0 s')
      end
  end.

(** With an empty [old], Python puts [new] before every character and at
    the end. *)
Fixpoint intersperse (new s : string) : string :=
  match s with
  | EmptyString => new
  | String c s' => new +:+ String c (intersperse new s')
  end.

Definition replace (old new s : string) : string :=
  match old with
  | EmptyString => intersperse new s
  | String _ _ => replace_from old new 0 s
  end.

(** [s] without the prefix [p], when it has it. *)
Definition strip_prefix (p s : string) : option string :=
  if startswith p s then Some (drop (String.length p) s) else None.

(** [s] without the suffix [suf], when it has it. *)
Fixpoint strip_suffix (suf s : string) : option string :=
  if decide (s = suf) then Some EmptyString
  else match s with
       | EmptyString => None
       | String c s' => String c <$> strip_suffix suf s'
       end.

(** [c in s] for a character [c]. *)
Fixpoint contains (c : ascii) (s : string) : bool :=
  match s with
  | EmptyString => false
  | String a s' => if decide (a = c) then true else contains c s'
  end.

(** [s[0:s.find(c)]] when [c] is in [s], and [s] otherwise. *)
Fixpoint before (c : ascii) (s : string) : string :=
  match s with
  | EmptyString => EmptyString
  | String a s' => if decide (a = c) then EmptyString else String a (before c s')
  end.

(** The characters that file names differ by between platforms: the
    separator of Windows paths, and NUL. *)
Definition backslash : ascii := ascii_of_nat 92.
Definition NUL : ascii := ascii_of_nat 0.

(** [s.encode("utf-8")]: a [string] holds the UTF-8 bytes of the text. *)
Definition encode_utf8 (s : string) : list Byte.byte := list_byte_of_string s.

End Str.

(** ** Python dictionaries

    [d[k] = v] replaces the value of an existing key where it stands and
    appends a new key at the end; iteration follows that order. *)

Module PyDict.
Section dict.
Context {K V : Type} `{EqDecision K}.
Implicit Types (k : K) (v : V) (d : list (K * V)).

Fixpoint get k d : option V :=
  match d with
  | [] => None
  | (k', v') :: d' => if decide (k' = k) then Some v' else get k d'
  end.

Fixpoint set k v d : list (K * V) :=
  match d with
  | [] => [(k, v)]
  | (k', v') :: d' =>
      if decide (k' = k) then (k', v) :: d' else (k', v') :: set k v d'
  end.

Definition keys d : list K := d.*1.

(** [d.update(other)] *)
Definition update d (other : list (K * V)) : list (K * V) :=
  foldl (λ acc kv, set kv.1 kv.2 acc) d other.

End dict.
End PyDict.

(** ** Exceptions *)

Inductive exn :=
  | AttributeError
  | TypeError
  | IndexError
  | NameError (msg : string)
  | ValidationError
  | FileExistsError
  | FileNotFoundError
  | IsADirectoryError
  | NotADirectoryError.

Inductive result (A : Type) :=
  | Ok (a : A)
  | Raise (e : exn).
Arguments Ok {A} a.
Arguments Raise {A} e.

Global Instance result_ret : MRet result := λ A a, Ok a.
Global Instance result_bind : MBind result := λ A B f m,
  match m with
  | Ok a => f a
  | Raise e => Raise e
  end.
Global Instance result_fmap : FMap result := λ A B f m,
  match m with
  | Ok a => Ok (f a)
  | Raise e => Raise e
  end.

(** ** geolib/models/dstability/serializer.py *)

Module DStability.

(** A model class [X] of the D-Stability schema, as far as the serializers
    use it: the results of its class methods [X.structure_group()] and
    [X.structure_name()]. *)
Record model_type := ModelType {
  structure_group : string;
  structure_name : string
}.

(** The annotation of a field: [list[X]] or [X]. *)
Inductive fieldtype :=
  | list_of (element_type : model_type)
  | plain (X : model_type).

(** A value of the serialized structure: the JSON text of a file, or the
    dictionary of a folder. *)
Inductive entry :=
  | File (json : string)
  | Folder (files : list (string * string)).

(** The key under which the loop body of [serialize] stores a field. *)
Definition entry_name (fieldtype : fieldtype) : string :=
  match fieldtype with
  | list_of element_type => structure_group element_type
  | plain X => structure_name X +:+ ".json"
  end.

(** The keys of a dictionary that received [names] in this order, starting
    from the keys [ks]: a key keeps the place of its first insertion. *)
Definition insertion_order (ks names : list string) : list string :=
  foldl (λ ks k, if decide (k ∈ ks) then ks else ks ++ [k]) ks names.

(** A model can be iterated: pydantic's [BaseModel.__iter__] yields a pair
    (name, value) for every field that the instance holds.  [iter_count data]
    is the number of pairs that [iter(data)] yields. *)
Class Iterable (Data : Type) := iter_count : Data → nat.

Section serializer.
Context {Data : Type} `{!Iterable Data}.

(** [data.model_dump_json(indent=4)] *)
Variable model_dump_json : Data → string.

(** The value of an attribute of the document. *)
Inductive attr :=
  | one (data : Data)
  | many (elems : list Data).

(** The document [ds]: the annotations of its class in declaration order,
    and the instance dictionary in the order the attributes were set. *)
Record DStabilityStructure := {
  annotations : list (string * fieldtype);
  attributes : list (string * attr)
}.

Definition getattr (ds : DStabilityStructure) (field : string) : option attr :=
  PyDict.get field (attributes ds).

(** [setattr] of each pair in turn, on an empty instance dictionary. *)
Definition populate (assignments : list (string * attr)) : list (string * attr) :=
  PyDict.update [] assignments.

(** Modelled from the spec: [geolib.models.utils.get_filtered_type_hints]
    is not among the sources.  The Reflective Walker of the spec
    "enumerates fields in declaration order", each with its declared type. *)
Definition get_filtered_type_hints (ds : DStabilityStructure)
  : list (string * fieldtype) :=
  annotations ds.

(** The inner loop [for i, data in enumerate(...)], from index [i] on. *)
Fixpoint serialize_elements (element_type : model_type) (i : nat)
    (elems : list Data) (folder : list (string * string))
  : list (string * string) :=
  match elems with
  | [] => folder
  | data :: elems' =>
      let suffix := if decide (0 < i) then "_" +:+ pretty i else "" in
      let fn := structure_name element_type +:+ suffix +:+ ".json" in
      serialize_elements element_type (S i) elems'
        (PyDict.set fn (model_dump_json data) folder)
  end.

(** The body of the outer loop: the key the field is stored under, and its
    value.  A missing attribute makes [getattr] raise.  For a [list[X]]
    field [enumerate] iterates whatever the attribute holds: over a single
    model it yields the pairs of the model, which have no
    [model_dump_json], so that the first pair makes the body raise, and a
    model without fields leaves the folder empty.  For any other field a
    list has no [model_dump_json]. *)
Definition serialize_field (ds : DStabilityStructure)
    (hint : string * fieldtype) : result (string * entry) :=
  let '(field, fieldtype) := hint in
  match fieldtype with
  | list_of element_type =>
      let folder := structure_group element_type in
      match getattr ds field with
      | Some (many elems) =>
          Ok (folder, Folder (serialize_elements element_type 0 elems []))
      | Some (one data) =>
          if decide (iter_count data = 0) then Ok (folder, Folder [])
          else Raise AttributeError
      | None => Raise AttributeError
      end
  | plain X =>
      let fn := structure_name X +:+ ".json" in
      match getattr ds field with
      | Some (one data) => Ok (fn, File (model_dump_json data))
      | Some (many _) => Raise AttributeError
      | None => Raise AttributeError
      end
  end.

(** The outer loop [for field, fieldtype in get_filtered_type_hints(...)]. *)
Fixpoint serialize_fields (ds : DStabilityStructure)
    (hints : list (string * fieldtype))
    (serialized_datastructure : list (string * entry))
  : result (list (string * entry)) :=
  match hints with
  | [] => Ok serialized_datastructure
  | hint :: hints' =>
      kv ← serialize_field ds hint;
      serialize_fields ds hints'
        (PyDict.set kv.1 kv.2 serialized_datastructure)
  end.

(** [DStabilityBaseSerializer.serialize] *)
Definition serialize (ds : DStabilityStructure)
  : result (list (string * entry)) :=
  serialize_fields ds (get_filtered_type_hints ds) [].

(** The document holds, for every annotated field, a value of the
    annotated shape: what the validation of the model guarantees. *)
Definition well_typed (ds : DStabilityStructure) : Prop :=
  ∀ field fieldtype, (field, fieldtype) ∈ annotations ds →
    match fieldtype with
    | list_of _ => ∃ elems, getattr ds field = Some (many elems)
    | plain _ => ∃ data, getattr ds field = Some (one data)
    end.

(** No class of a list field has an empty group name. *)
Definition named_groups (ds : DStabilityStructure) : Prop :=
  ∀ field X, (field, list_of X) ∈ annotations ds → structure_group X ≠ "".

(** The file name of element [i] of a list of [X], and the files of a
    folder, in closed form. *)
Definition json_name (X : model_type) (i : nat) : string :=
  structure_name X +:+ (if decide (0 < i) then "_" +:+ pretty i else "")
    +:+ ".json".

Definition folder_files (X : model_type) (elems : list Data)
  : list (string * string) :=
  imap (λ i data, (json_name X i, model_dump_json data)) elems.

(** *** [DStabilityInputSerializer.write]

    The file system: what is stored under each path.  Paths are those of
    [pathlib]: [truediv] is its [/] and [parents p] lists the ancestors of
    [p], outermost first. *)

Inductive node :=
  | Dir
  | Regular (content : list Byte.byte).

Context {path : Type} `{EqDecision path}.
Variable truediv : path → string → path.
Variable parents : path → list path.

(** [os.mkdir] along a chain of paths, outermost first: an existing
    directory is kept ([exist_ok=True]), a missing one is created
    ([parents=True]), a file in the way raises. *)
Fixpoint mkdir_chain (chain : list path) (fs : path → option node)
  : (path → option node) * result () :=
  match chain with
  | [] => (fs, Ok ())
  | p :: chain' =>
      match fs p with
      | Some Dir => mkdir_chain chain' fs
      | Some (Regular _) =>
          (fs, Raise (match chain' with
                      | [] => FileExistsError
                      | _ => NotADirectoryError
                      end))
      | None => mkdir_chain chain' (<[p := Some Dir]> fs)
      end
  end.

(** [folder.mkdir(parents=True, exist_ok=True)] *)
Definition mkdir (folder : path) (fs : path → option node)
  : (path → option node) * result () :=
  mkdir_chain (parents folder ++ [folder]) fs.

(** [with fn.open("wb") as io: io.write(data)]: the directory of [fn] must
    exist and [fn] must not be a directory; the file is created or
    truncated, then filled. *)
Definition write_bytes (fn : path) (data : list Byte.byte)
    (fs : path → option node) : (path → option node) * result () :=
  match list.last (parents fn) with
  | Some d =>
      match fs d with
      | Some Dir =>
          match fs fn with
          | Some Dir => (fs, Raise IsADirectoryError)
          | _ => (<[fn := Some (Regular data)]> fs, Ok ())
          end
      | Some (Regular _) => (fs, Raise NotADirectoryError)
      | None => (fs, Raise FileNotFoundError)
      end
  | None =>
      match fs fn with
      | Some Dir => (fs, Raise IsADirectoryError)
      | _ => (<[fn := Some (Regular data)]> fs, Ok ())
      end
  end.

(** The loop [for ffilename, fdata in data.items()]. *)
Fixpoint write_files (folder : path) (data : list (string * string))
    (fs : path → option node) : (path → option node) * result () :=
  match data with
  | [] => (fs, Ok ())
  | (ffilename, fdata) :: data' =>
      let fn := truediv folder ffilename in
      match write_bytes fn (Str.encode_utf8 fdata) fs with
      | (fs', Ok _) => write_files folder data' fs'
      | (fs', Raise e) => (fs', Raise e)
      end
  end.

(** The loop [for filename, data in serialized_datastructure.items()]. *)
Fixpoint write_entries (filepath : path)
    (serialized_datastructure : list (string * entry))
    (fs : path → option node) : (path → option node) * result () :=
  match serialized_datastructure with
  | [] => (fs, Ok ())
  | (filename, Folder data) :: rest =>
      let folder := truediv filepath filename in
      match mkdir folder fs with
      | (fs1, Ok _) =>
          match write_files folder data fs1 with
          | (fs2, Ok _) => write_entries filepath rest fs2
          | (fs2, Raise e) => (fs2, Raise e)
          end
      | (fs1, Raise e) => (fs1, Raise e)
      end
  | (filename, File data) :: rest =>
      let fn := truediv filepath filename in
      match write_bytes fn (Str.encode_utf8 data) fs with
      | (fs1, Ok _) => write_entries filepath rest fs1
      | (fs1, Raise e) => (fs1, Raise e)
      end
  end.

(** [DStabilityInputSerializer.write]: the file system it leaves, and the
    path it returns or the exception it raises. *)
Definition write (ds : DStabilityStructure) (filepath : path)
    (fs : path → option node) : (path → option node) * result path :=
  match serialize ds with
  | Ok serialized_datastructure =>
      match write_entries filepath serialized_datastructure fs with
      | (fs', Ok _) => (fs', Ok filepath)
      | (fs', Raise e) => (fs', Raise e)
      end
  | Raise e => (fs, Raise e)
  end.

(** The paths of the files named by a serialized structure. *)
Definition file_targets (filepath : path)
    (serialized_datastructure : list (string * entry)) : list path :=
  serialized_datastructure ≫= λ kv,
    match kv.2 with
    | File _ => [truediv filepath kv.1]
    | Folder data => (λ f, truediv (truediv filepath kv.1) f.1) <$> data
    end.

(** The paths of the folders named by a serialized structure, with the
    ancestors that [mkdir] creates when they are missing. *)
Definition folder_targets (filepath : path)
    (serialized_datastructure : list (string * entry)) : list path :=
  serialized_datastructure ≫= λ kv,
    match kv.2 with
    | File _ => []
    | Folder _ => parents (truediv filepath kv.1) ++ [truediv filepath kv.1]
    end.

(** The texts a serialized structure holds. *)
Definition texts (serialized_datastructure : list (string * entry))
  : list string :=
  serialized_datastructure ≫= λ kv,
    match kv.2 with
    | File data => [data]
    | Folder data => data.*2
    end.

(** What a path holds, but for the content of a file. *)
Definition shape (n : option node) : option bool :=
  match n with
  | Some Dir => Some true
  | Some (Regular _) => Some false
  | None => None
  end.

(** Two file systems with the same directories and the same file names,
    whatever the files hold. *)
Definition same_shape (fs1 fs2 : path → option node) : Prop :=
  ∀ p, shape (fs1 p) = shape (fs2 p).

(** What a call may have done at the path [p], which held [before] and
    holds [after]: nothing; or it made a directory of [dirs] that was
    missing; or it wrote one of [texts] to a file of [files], new or not. *)
Definition touched (dirs files : list path) (texts : list string)
    (before after : option node) (p : path) : Prop :=
  after = before
  ∨ (before = None ∧ after = Some Dir ∧ p ∈ dirs)
  ∨ (before ≠ Some Dir ∧ p ∈ files
     ∧ ∃ text, text ∈ texts ∧ after = Some (Regular (Str.encode_utf8 text))).

(** Two runs, from [fs1] to [fs1'] and from [fs2] to [fs2'], that did the
    same: the results have the same shape, and every path was left alone by
    both or holds the same in both. *)
Definition in_step (fs1 fs2 fs1' fs2' : path → option node) : Prop :=
  same_shape fs1' fs2'
  ∧ ∀ p, (fs1' p = fs1 p ∧ fs2' p = fs2 p) ∨ fs1' p = fs2' p.

End serializer.

(** *** [DStabilityInputZipSerializer.write]

    [ZipFile] is Python's.  An archive is the list of its members,
    [zip.filelist] with what was written to each.  Of the metadata of a
    member, [ZipInfo], the code names [create_system]; [Meta] stands for
    the others.  [ZipInfo_new env name] is the [ZipInfo] that
    [zip.open(name, "w")] makes for a new member in the producing
    environment [env]. *)

Record ZipInfo (Meta : Type) := {
  zi_filename : string;
  create_system : Z;
  zi_meta : Meta
}.
Arguments zi_filename {Meta} _.
Arguments create_system {Meta} _.
Arguments zi_meta {Meta} _.

Record member (Meta : Type) := {
  zinfo : ZipInfo Meta;
  written : list Byte.byte
}.
Arguments zinfo {Meta} _.
Arguments written {Meta} _.

(** [zfile.create_system = v] *)
Definition set_create_system {Meta} (v : Z) (zfile : ZipInfo Meta) : ZipInfo Meta :=
  {| zi_filename := zi_filename zfile;
     create_system := v;
     zi_meta := zi_meta zfile |}.

Section zip_serializer.
Context {Data : Type} `{!Iterable Data}.
Variable model_dump_json : Data → string.
Context {Env Meta : Type}.
Variable ZipInfo_new : Env → string → ZipInfo Meta.

(** [with zip.open(fn, "w") as io: io.write(data)] appends a member. *)
Definition zip_write_member (env : Env) (fn : string) (data : list Byte.byte)
    (zip : list (member Meta)) : list (member Meta) :=
  zip ++ [{| zinfo := ZipInfo_new env fn; written := data |}].

(** The loop [for ffilename, fdata in data.items()]; [folder[-1]] raises
    on an empty folder name.  The members written before stay in the
    archive. *)
Fixpoint zip_write_files (env : Env) (folder : string)
    (data : list (string * string)) (zip : list (member Meta))
  : list (member Meta) * result () :=
  match data with
  | [] => (zip, Ok ())
  | (ffilename, fdata) :: data' =>
      match Str.last folder with
      | None => (zip, Raise IndexError)
      | Some c =>
          let fn := if decide (c = "/"%char)
                    then folder +:+ ffilename
                    else folder +:+ "/" +:+ ffilename in
          zip_write_files env folder data'
            (zip_write_member env fn (Str.encode_utf8 fdata) zip)
      end
  end.

(** The loop [for filename, data in serialized_datastructure.items()]. *)
Fixpoint zip_write_entries (env : Env)
    (serialized_datastructure : list (string * entry))
    (zip : list (member Meta)) : list (member Meta) * result () :=
  match serialized_datastructure with
  | [] => (zip, Ok ())
  | (filename, Folder data) :: rest =>
      let folder := filename in
      match zip_write_files env folder data zip with
      | (zip', Ok _) => zip_write_entries env rest zip'
      | (zip', Raise e) => (zip', Raise e)
      end
  | (filename, File data) :: rest =>
      zip_write_entries env rest
        (zip_write_member env filename (Str.encode_utf8 data) zip)
  end.

(** The loop [for zfile in zip.filelist: zfile.create_system = 0]. *)
Definition normalize (zip : list (member Meta)) : list (member Meta) :=
  (λ m, {| zinfo := set_create_system 0 (zinfo m); written := written m |})
    <$> zip.

(** [DStabilityInputZipSerializer.write] in the environment [env]: the
    archive that is at [filepath] afterwards, and the value returned,
    [filepath], or the exception raised.  [ZipFile(filepath, mode="w")]
    starts an empty archive, and leaving the [with] block finalizes it,
    also when an exception leaves it: the archive then holds the members
    written so far, and the last loop has not run. *)
Definition zip_write {F : Type} (env : Env) (ds : DStabilityStructure)
    (filepath : F) : list (member Meta) * result F :=
  match serialize model_dump_json ds with
  | Ok serialized_datastructure =>
      match zip_write_entries env serialized_datastructure [] with
      | (zip, Ok _) => (normalize zip, Ok filepath)
      | (zip, Raise e) => (zip, Raise e)
      end
  | Raise e => ([], Raise e)
  end.

(** The bytes of the archive.  The container format and the compression
    are [zipfile]'s: when the archive is finalized, [ZipFile] writes the
    central directory from the [ZipInfo] of every member as it is then,
    after the members themselves, which hold what was written to them;
    [create_system] is in the central directory only.  [ZipFile_close]
    stands for that encoding of the members. *)
Variable ZipFile_close : list (member Meta) → list Byte.byte.

Definition archive_bytes {F : Type} (env : Env) (ds : DStabilityStructure)
    (filepath : F) : list Byte.byte :=
  ZipFile_close (zip_write env ds filepath).1.

End zip_serializer.
End DStability.

(** ** geolib/models/dfoundations/internal.py *)

Module DFoundations.

(** [geolib.models.internal.Bool], the flags of the D-Series formats. *)
Inductive Bool :=
  | FALSE
  | TRUE.

Module MainCalculationType.
Inductive t :=
  | PRELIMINARY_DESIGN
  | VERIFICATION_DESIGN.

Definition value (x : t) : Z :=
  match x with
  | PRELIMINARY_DESIGN => 0
  | VERIFICATION_DESIGN => 1
  end.
End MainCalculationType.

Module SubCalculationType.
Inductive t :=
  | VERIFICATION_DESIGN
  | VERIFICATION_COMPLETE
  | INDICATION_BEARING_CAPACITY
  | BEARING_CAPACITY_AT_FIXED_PILETIP_LEVELS
  | PILETIP_LEVELS_AND_NET_BEARING_CAPACITY
  | UNSUPPORTED.

Definition value (x : t) : Z :=
  match x with
  | VERIFICATION_DESIGN => 0
  | VERIFICATION_COMPLETE => 1
  | INDICATION_BEARING_CAPACITY => 2
  | BEARING_CAPACITY_AT_FIXED_PILETIP_LEVELS => 3
  | PILETIP_LEVELS_AND_NET_BEARING_CAPACITY => 4
  | UNSUPPORTED => 7
  end.
End SubCalculationType.

Inductive TimeOrderType :=
  | CPT_EXCAVATION_INSTALL
  | INSTALL_CPT_EXCAVATION
  | EXCAVATION_CPT_INSTALL
  | EXCAVATION_INSTALL_CPT
  | INSTALL_EXCAVATION_CPT
  | CPT_INSTALL_EXCAVATION
  | CPT_BEFORE_AND_AFTER_INSTALL.

(** *** [CalculationType] *)

Record CalculationType := {
  main_calculationtype : MainCalculationType.t;
  sub_calculationtype : SubCalculationType.t
}.

(** [self.main_calculationtype = v] *)
Definition set_main_calculationtype (v : MainCalculationType.t)
    (self : CalculationType) : CalculationType :=
  {| main_calculationtype := v;
     sub_calculationtype := sub_calculationtype self |}.

(** [CalculationType.__init__]: the keyword arguments are the values the
    caller gives for the two fields, if any; [super().__init__] sets each
    field to it, or else to the declared default. *)
Definition CalculationType_init
    (main_calculationtype_arg : option MainCalculationType.t)
    (sub_calculationtype_arg : option SubCalculationType.t) : CalculationType :=
  let self :=
    {| main_calculationtype :=
         default MainCalculationType.PRELIMINARY_DESIGN main_calculationtype_arg;
       sub_calculationtype :=
         default SubCalculationType.INDICATION_BEARING_CAPACITY
           sub_calculationtype_arg |} in
  if decide (2 ≤ SubCalculationType.value (sub_calculationtype self))%Z
  then set_main_calculationtype MainCalculationType.PRELIMINARY_DESIGN self
  else set_main_calculationtype MainCalculationType.VERIFICATION_DESIGN self.

(** *** [DFoundationsNenPileResults] *)

(** [DFoundationsNenPileResults.header_lines], a class method: [cls] is
    the name of the class it is called on. *)
Definition header_lines (cls : string) : Z := 3.

(** *** [CalculationOptions] *)

(** The values of keyword arguments and of fields. *)
Inductive value :=
  | VNone
  | VBool (b : Bool)
  | VInt (z : Z)
  | VFloat (q : Q).

Global Instance Bool_eq_dec : EqDecision Bool.
Proof. solve_decision. Defined.
Global Instance Q_eq_dec : EqDecision Q.
Proof. solve_decision. Defined.
Global Instance value_eq_dec : EqDecision value.
Proof. solve_decision. Defined.

(** The annotation of a field: [Bool], or a number with the bounds of its
    [Field(ge=..., le=...)], [optional] when it is [... | None]. *)
Inductive annotation :=
  | TBool
  | TFloat (ge le : option Q) (optional : bool)
  | TInt (ge le : option Z) (optional : bool).

Record field_info := Field {
  field_name : string;
  field_type : annotation;
  field_default : value
}.

Definition flag (name : string) (b : Bool) : field_info :=
  Field name TBool (VBool b).

(** [Annotated[float, Field(ge=lo, le=hi)] = d] *)
Definition float_in (name : string) (lo hi : Q) (d : value) : field_info :=
  Field name (TFloat (Some lo) (Some hi) false) d.

(** [Annotated[float, Field(ge=lo, le=hi)] | None = d] *)
Definition opt_float_in (name : string) (lo hi : Q) (d : value) : field_info :=
  Field name (TFloat (Some lo) (Some hi) true) d.

(** [Annotated[int, Field(ge=lo, le=hi)] = d] *)
Definition int_in (name : string) (lo hi : Z) (d : value) : field_info :=
  Field name (TInt (Some lo) (Some hi) false) d.

(** The fields of [CalculationOptions], in declaration order. *)
Definition CalculationOptions_fields : list field_info := [
  flag "is_rigid" TRUE;
  float_in "max_allowed_settlement_lim_state_str" 0 100000 (VInt 0);
  int_in "max_allowed_rel_rotation_lim_state_str" 1 10000 (VInt 100);
  float_in "max_allowed_settlement_lim_state_serv" 0 100000 (VInt 0);
  int_in "max_allowed_rel_rotation_lim_state_serv" 1 10000 (VInt 300);
  flag "is_xi3_overruled" FALSE;
  opt_float_in "factor_xi3" 0.01 10 (VInt 2);
  flag "is_xi4_overruled" FALSE;
  opt_float_in "factor_xi4" 0.01 10 (VInt 2);
  flag "is_gamma_b_overruled" FALSE;
  opt_float_in "factor_gamma_b" 1 100 (VInt 2);
  flag "is_gamma_s_overruled" FALSE;
  opt_float_in "factor_gamma_s" 1 100 (VInt 2);
  flag "is_gamma_fnk_overruled" FALSE;
  opt_float_in "factor_gamma_fnk" (-100) 100 (VInt 2);
  flag "is_area_overruled" FALSE;
  opt_float_in "area" 0 100000 (VInt 1000);
  flag "is_qbmax_overruled" FALSE;
  opt_float_in "qbmax" 0 100 (VInt 15);
  flag "is_qcza_low_overruled" FALSE;
  opt_float_in "qcza_low" 0 100 (VInt 12);
  flag "is_qcza_high_overruled" FALSE;
  opt_float_in "qcza_high" 0 100 (VInt 15);
  flag "is_ea_gem_overruled" FALSE;
  Field "ea_gem" (TFloat (Some 1%Q) None true) (VInt 100000);
  flag "is_suppress_qc_reduction" FALSE;
  flag "is_overrule_excavation" FALSE;
  flag "use_pile_group" TRUE;
  flag "is_write_intermediate_results" FALSE;
  flag "use_interaction_model" FALSE;
  flag "use_almere_rules" FALSE;
  flag "use_extra_almere_rules" FALSE;
  flag "is_gamma_g_str_overruled" FALSE;
  opt_float_in "factor_gamma_g_str" 0.01 100 (VFloat 1.0);
  flag "is_gamma_coh_overruled" FALSE;
  opt_float_in "factor_gamma_coh" 0.01 100 (VFloat 1.0);
  flag "is_gamma_phi_overruled" FALSE;
  opt_float_in "factor_gamma_phi" 0.01 100 (VFloat 1.0);
  flag "is_gamma_fundr_overruled" FALSE;
  opt_float_in "factor_gamma_fundr" 0.01 100 (VFloat 1.0);
  flag "is_gamma_g_sls_overruled" FALSE;
  opt_float_in "factor_gamma_g_sls" 0.01 100 (VFloat 1.0);
  flag "is_gamma_cc_overruled" FALSE;
  opt_float_in "factor_gamma_cc" 0.01 100 (VFloat 1.0);
  flag "is_gamma_ca_overruled" FALSE;
  opt_float_in "factor_gamma_ca" 0.01 100 (VFloat 1.0);
  flag "is_keep_length_constant" FALSE;
  flag "use_5_percent_limit" FALSE;
  float_in "load_factor_between_limit_1_and_2" 0.5 1 (VFloat 0.833);
  float_in "unit_weight_water" 0.01 20 (VFloat 9.81);
  flag "use_compaction" FALSE;
  flag "is_gamma_var_overruled" FALSE;
  opt_float_in "factor_gamma_var" 0.01 100 (VFloat 1.0);
  flag "is_gamma_st_overruled" FALSE;
  opt_float_in "factor_gamma_st" 0.01 100 (VFloat 1.0);
  flag "is_gamma_gamma_overruled" FALSE;
  opt_float_in "factor_gamma_gamma" 0.01 100 (VFloat 1.0);
  float_in "surcharge" 0 1e7 (VInt 0);
  flag "use_piezometric_levels" TRUE
]%Q.

(** [self.model_fields], by name. *)
Definition model_fields : list string :=
  field_name <$> CalculationOptions_fields.

(** [CalculationOptions.find_toggle] *)
Definition find_toggle (field : string) : string :=
  "is_" +:+ Str.replace "factor_" "" field +:+ "_overruled".

(** The toggle of a field in the words of the specification: the name
    without its prefix [factor_], between [is_] and [_overruled]. *)
Definition toggle_of (field : string) : string :=
  "is_" +:+ default field (Str.strip_prefix "factor_" field) +:+ "_overruled".

(** What stands between [is_] and [_overruled] in a name of that form. *)
Definition untoggle (toggle_field : string) : option string :=
  Str.strip_prefix "is_" toggle_field ≫= Str.strip_suffix "_overruled".

Section CalculationOptions.

(** The constructor of the base class is pydantic's and not among the
    sources: every declared field takes the validated keyword argument of
    its name, or else its validated default.  How a value is validated
    against an annotation, and what becomes of keyword arguments that name
    no field, are left open. *)
Variable validate : field_info → value → result value.
Variable extra : list (string * value) → result (list (string * value)).

Fixpoint validate_fields (fields : list field_info)
    (kwargs : list (string * value)) : result (list (string * value)) :=
  match fields with
  | [] => Ok []
  | info :: fields' =>
      v ← validate info
            (default (field_default info) (PyDict.get (field_name info) kwargs));
      obj ← validate_fields fields' kwargs;
      Ok ((field_name info, v) :: obj)
  end.

(** [super().__init__] with the keyword arguments [kwargs]: the instance
    dictionary. *)
Definition BaseModel_init (fields : list field_info)
    (kwargs : list (string * value)) : result (list (string * value)) :=
  obj ← validate_fields fields kwargs;
  others ← extra (filter (λ kv, kv.1 ∉ field_name <$> fields) kwargs);
  Ok (obj ++ others).

(** The body of the loop of [CalculationOptions.__init__] over
    [kwargs.items()], and the loop. *)
Definition record_toggle (toggles : list (string * value))
    (item : string * value) : list (string * value) :=
  let '(field, value) := item in
  if decide (value = VNone) then toggles
  else
    let toggle_field := find_toggle field in
    if decide (toggle_field ∈ model_fields)
    then PyDict.set toggle_field (VBool TRUE) toggles
    else toggles.

Definition collect_toggles (kwargs : list (string * value))
  : list (string * value) :=
  foldl record_toggle [] kwargs.

(** [CalculationOptions.__init__] *)
Definition CalculationOptions_init (kwargs : list (string * value))
  : result (list (string * value)) :=
  let toggles := collect_toggles kwargs in
  let kwargs := PyDict.update kwargs toggles in
  BaseModel_init CalculationOptions_fields kwargs.

End CalculationOptions.

(** A validation that accepts the values of the annotated type within the
    bounds, and [None] for an optional field. *)
Definition validate_strict (info : field_info) (v : value) : result value :=
  match field_type info, v with
  | TBool, VBool b => Ok (VBool b)
  | TFloat lo hi _, VFloat q =>
      if from_option (λ l, Qle_bool l q) true lo
         && from_option (λ h, Qle_bool q h) true hi
      then Ok (VFloat q) else Raise ValidationError
  | TFloat lo hi _, VInt z =>
      if from_option (λ l, Qle_bool l (inject_Z z)) true lo
         && from_option (λ h, Qle_bool (inject_Z z) h) true hi
      then Ok (VFloat (inject_Z z)) else Raise ValidationError
  | TInt lo hi _, VInt z =>
      if from_option (λ l, l <=? z)%Z true lo
         && from_option (λ h, z <=? h)%Z true hi
      then Ok (VInt z) else Raise ValidationError
  | TFloat _ _ true, VNone => Ok VNone
  | TInt _ _ true, VNone => Ok VNone
  | _, _ => Raise ValidationError
  end.

(** [extra="forbid"] *)
Definition extra_forbid (others : list (string * value))
  : result (list (string * value)) :=
  match others with
  | [] => Ok []
  | _ :: _ => Raise ValidationError
  end.

(** *** Objects shared by reference

    A profile or a CPT is an object: a list holds references to it, and an
    assignment to one of its fields is seen through every reference.  A
    store maps references to the objects they denote. *)

Definition loc := nat.

Section objects.
Context {float Other : Type}.

(** [Profile], with the fields [add_profile_if_unique] touches; [Other]
    holds the remaining ones. *)
Record Profile := {
  name : string;
  excavation_level : float;
  profile_other : Other
}.

(** [added_profile.excavation_level = v] *)
Definition set_excavation_level (v : float) (p : Profile) : Profile :=
  {| name := name p; excavation_level := v; profile_other := profile_other p |}.

(** [Profiles]: the store of profile objects and the list [self.profiles]. *)
Record Profiles := {
  profile_store : loc → Profile;
  profiles : list loc
}.

(** The loop of [add_profile_if_unique] over the stored profiles that are
    still to visit: the store it leaves, and whether it raised. *)
Fixpoint add_profile_loop (profile : loc) (todo : list loc)
    (store : loc → Profile) : (loc → Profile) * result () :=
  match todo with
  | [] => (store, Ok ())
  | added_profile :: todo' =>
      let store :=
        <[added_profile :=
            set_excavation_level (excavation_level (store profile))
              (store added_profile)]> store in
      if decide (name (store profile) = name (store added_profile))
      then (store,
            Raise (NameError ("profile with name " +:+ name (store profile)
                              +:+ " already exists.")))
      else add_profile_loop profile todo' store
  end.

(** [Profiles.add_profile_if_unique] *)
Definition add_profile_if_unique (profile : loc) (self : Profiles)
  : Profiles * result loc :=
  match add_profile_loop profile (profiles self) (profile_store self) with
  | (store, Ok _) =>
      ({| profile_store := store; profiles := profiles self ++ [profile] |},
       Ok profile)
  | (store, Raise e) =>
      ({| profile_store := store; profiles := profiles self |}, Raise e)
  end.

(** [CPT], with the fields [add_cpt] touches. *)
Record CPT := {
  cptname : string;
  timeorder_type : TimeOrderType;
  cpt_other : Other
}.

(** [existing_cpt.timeorder_type = v] *)
Definition set_timeorder_type (v : TimeOrderType) (c : CPT) : CPT :=
  {| cptname := cptname c; timeorder_type := v; cpt_other := cpt_other c |}.

(** [CPTList]: the store of CPT objects and the list [self.cpt_collection]. *)
Record CPTList := {
  cpt_store : loc → CPT;
  cpt_collection : list loc
}.

(** The loop of [add_cpt]. *)
Definition force_timeorder (cpt : loc) (existing : list loc)
    (store : loc → CPT) : loc → CPT :=
  foldl (λ store existing_cpt,
           <[existing_cpt :=
               set_timeorder_type (timeorder_type (store cpt))
                 (store existing_cpt)]> store)
        store existing.

(** [CPTList.add_cpt]: the list after the call, and the id it returns. *)
Definition add_cpt (cpt : loc) (self : CPTList) : CPTList * Z :=
  let store := force_timeorder cpt (cpt_collection self) (cpt_store self) in
  let cpt_collection := cpt_collection self ++ [cpt] in
  ({| cpt_store := store; cpt_collection := cpt_collection |},
   Z.of_nat (length cpt_collection) - 1)%Z.

End objects.

(** *** [SoilCollection] and the defaults of the documents

    A list of soils is a mutable object too; the heap holds the lists and
    the next free reference.  [Soil] is declared in [internal_soil], which
    is not among the sources: its name and [Soil.default_soils()] are taken
    as given. *)

Section soils.
Context {Soil : Type}.
Variable soil_name : Soil → string.
Variable default_soils : list Soil.

Record heap := {
  lists : loc → list Soil;
  next_loc : loc
}.

(** A new list object holding [l]. *)
Definition alloc (l : list Soil) (h : heap) : loc * heap :=
  (next_loc h,
   {| lists := <[next_loc h := l]> (lists h); next_loc := S (next_loc h) |}).

(** A [SoilCollection] instance refers to its list [self.soil]. *)
Record SoilCollection := { soil : loc }.

(** A [DFoundationsInputStructure] instance, with the field the soils are
    reached through. *)
Record DFoundationsInputStructure := { soil_collection : SoilCollection }.

(** The defaults that the class bodies declare: the list
    [SoilCollection.soil = Soil.default_soils()] and the instance
    [DFoundationsInputStructure.soil_collection = SoilCollection()]. *)
Record defaults := {
  SoilCollection_soil : loc;
  DFoundationsInputStructure_soil_collection : SoilCollection
}.

(** Modelled from the spec: the constructor of the base class is not among
    the sources.  The spec requires "each default to be freshly constructed
    per Document instance", "never a single shared mutable default": the
    instance gets a new list with the soils of the declared default. *)
Definition SoilCollection_new (cls : defaults) (h : heap)
  : SoilCollection * heap :=
  let (l, h') := alloc (lists h (SoilCollection_soil cls)) h in
  ({| soil := l |}, h').

(** Modelled from the spec: as [SoilCollection_new], for the default
    instance of the field [soil_collection]. *)
Definition DFoundationsInputStructure_new (cls : defaults) (h : heap)
  : DFoundationsInputStructure * heap :=
  let (l, h') :=
    alloc (lists h (soil (DFoundationsInputStructure_soil_collection cls))) h in
  ({| soil_collection := {| soil := l |} |}, h').

(** The class bodies, run once when the module is imported. *)
Definition import_module : defaults * heap :=
  let (l, h) := alloc default_soils {| lists := λ _, []; next_loc := 0 |} in
  let cls := {| SoilCollection_soil := l;
                DFoundationsInputStructure_soil_collection := {| soil := l |} |} in
  let (d, h') := SoilCollection_new cls h in
  ({| SoilCollection_soil := l;
      DFoundationsInputStructure_soil_collection := d |}, h').

(** The loop of [add_soil_if_unique]. *)
Fixpoint check_unique (soil : Soil) (added : list Soil) : result () :=
  match added with
  | [] => Ok ()
  | added_soil :: added' =>
      if decide (soil_name soil = soil_name added_soil)
      then Raise (NameError ("Soil with name " +:+ soil_name soil
                             +:+ " already exists."))
      else check_unique soil added'
  end.

(** [SoilCollection.add_soil_if_unique] *)
Definition add_soil_if_unique (self : SoilCollection) (soil' : Soil) (h : heap)
  : heap * result Soil :=
  match check_unique soil' (lists h (soil self)) with
  | Ok _ =>
      ({| lists := <[soil self := lists h (soil self) ++ [soil']]> (lists h);
          next_loc := next_loc h |},
       Ok soil')
  | Raise e => (h, Raise e)
  end.

End soils.
End DFoundations.

(** ** Sample inputs *)

Module Sample.
Import DStability.

(** Three model classes in the manner of the D-Stability schema. *)
Definition Waternet : model_type := ModelType "waternets" "waternet".
Definition SoilCollection : model_type := ModelType "" "soils".
Definition UpliftVanResult : model_type :=
  ModelType "results/upliftvan/" "upliftvanresult".

Definition hints : list (string * fieldtype) :=
  [("waternets", list_of Waternet);
   ("soils", plain SoilCollection);
   ("uplift_van_results", list_of UpliftVanResult)].

(** The models are their own JSON text; one without fields is [{}]. *)
#[global] Instance string_iterable : Iterable string :=
  λ data, if decide (data = "{}") then 0 else 1.

(** A document whose data are their own JSON text, populated in an order
    that is not the declaration order, and the same one populated in
    declaration order. *)
Definition assignments : list (string * @attr string) :=
  [("soils", one "{soils}");
   ("uplift_van_results", many ["{r0}"]);
   ("waternets", many ["{w0}"; "{w1}"; "{w2}"])].

Definition assignments_in_order : list (string * @attr string) :=
  [("waternets", many ["{w0}"; "{w1}"; "{w2}"]);
   ("soils", one "{soils}");
   ("uplift_van_results", many ["{r0}"])].

Definition ds : @DStabilityStructure string :=
  {| annotations := hints; attributes := populate assignments |}.

Definition ds_in_order : @DStabilityStructure string :=
  {| annotations := hints; attributes := populate assignments_in_order |}.

Definition serialized : list (string * entry) :=
  [("waternets", Folder [("waternet.json", "{w0}");
                         ("waternet_1.json", "{w1}");
                         ("waternet_2.json", "{w2}")]);
   ("soils.json", File "{soils}");
   ("results/upliftvan/", Folder [("upliftvanresult.json", "{r0}")])].

End Sample.

Module SampleSoils.
Import DFoundations.

(** Soils that are their own names, with two default soils; the classes and
    the heap are those left by the import of the module. *)
Definition default_soils : list string := ["Sand"; "Clay"].
Definition cls : defaults := (import_module default_soils).1.
Definition h : @heap string := (import_module default_soils).2.

End SampleSoils.

Module SampleOptions.
Import DFoundations.

(** The caller overrides [factor_xi3] and passes the toggle as [FALSE]. *)
Definition kwargs : list (string * value) :=
  [("factor_xi3", VFloat 1.5); ("is_xi3_overruled", VBool FALSE)].

Definition constructed : list (string * value) :=
  match CalculationOptions_init validate_strict extra_forbid kwargs with
  | Ok obj => obj
  | Raise _ => []
  end.

End SampleOptions.

Module SampleZip.
Import DStability.

(** Two producing platforms.  As in [zipfile], the name of a new member is
    cut at its first NUL, on Windows its backslashes become slashes, and
    [create_system] is 0 on Windows and 3 elsewhere; nothing else depends
    on the platform. *)
Inductive platform :=
  | win32
  | linux.

Definition ZipInfo_new (env : platform) (name : string) : ZipInfo () :=
  let filename := Str.before Str.NUL name in
  {| zi_filename :=
       match env with
       | win32 => Str.replace (String Str.backslash "") "/" filename
       | linux => filename
       end;
     create_system := match env with win32 => 0 | linux => 3 end;
     zi_meta := () |}.

Definition archive : list (member ()) :=
  (zip_write id ZipInfo_new linux Sample.ds "sample.stix").1.

(** A document of a class with a list field whose group has no name: the
    zip writer raises at the first element of the list, after the file of
    the field before it. *)
Definition ds_unnamed : @DStabilityStructure string :=
  {| annotations :=
       [("soils", plain Sample.SoilCollection);
        ("waternets", list_of (ModelType "" "waternet"))];
     attributes :=
       populate [("soils", one "{soils}"); ("waternets", many ["{w0}"])] |}.

End SampleZip.

Module SampleFiles.
Import DStability.

(** Paths as lists of components.  A key is cut at its slashes; the
    ancestors of a path are its proper prefixes below the root. *)
Fixpoint components (current key : string) : list string :=
  match key with
  | EmptyString => if decide (current = "") then [] else [current]
  | String c key' =>
      if decide (c = "/"%char)
      then (if decide (current = "") then [] else [current])
             ++ components "" key'
      else components (current +:+ String c "") key'
  end.

Definition truediv (p : list string) (key : string) : list string :=
  p ++ components "" key.

Definition parents (p : list string) : list (list string) :=
  (λ n, take n p) <$> seq 1 (length p - 1).

(** A directory [out] with a file of the user and an older [soils.json]. *)
Definition fs : list string → option node :=
  <[ ["out"; "soils.json"] := Some (Regular (Str.encode_utf8 "old")) ]>
    (<[ ["out"; "notes.txt"] := Some (Regular (Str.encode_utf8 "keep")) ]>
       (<[ ["out"] := Some Dir ]> (λ _, None))).

End SampleFiles.

Module SamplePosix.

(** Paths as [PurePosixPath] joins them: an absolute key replaces the path,
    and the components [.] of a key are dropped.  An absolute path has the
    root as its first component. *)
Definition parts (key : string) : list string :=
  filter (λ c, c ≠ ".") (SampleFiles.components "" key).

Definition truediv (p : list string) (key : string) : list string :=
  if Str.startswith "/" key then "/" :: parts key else p ++ parts key.

End SamplePosix.

Module SampleObjects.
Import DFoundations.

(** Three stored profiles [a], [b], [c] at the references 0, 1, 2 and a new
    profile at 3 that has the name of the second; levels are integers. *)
Definition profile_objects : loc → @Profile Z () :=
  <[0 := {| name := "a"; excavation_level := 1%Z; profile_other := () |}]>
  (<[1 := {| name := "b"; excavation_level := 2%Z; profile_other := () |}]>
  (<[2 := {| name := "c"; excavation_level := 3%Z; profile_other := () |}]>
  (λ _, {| name := "b"; excavation_level := 9%Z; profile_other := () |}))).

Definition stored_profiles : @Profiles Z () :=
  {| profile_store := profile_objects; profiles := [0; 1; 2] |}.

(** Two stored CPTs and a new one with another time order. *)
Definition cpt_objects : loc → @CPT () :=
  <[0 := {| cptname := "cpt0"; timeorder_type := CPT_EXCAVATION_INSTALL;
            cpt_other := () |}]>
  (<[1 := {| cptname := "cpt1"; timeorder_type := INSTALL_CPT_EXCAVATION;
             cpt_other := () |}]>
  (λ _, {| cptname := "new"; timeorder_type := CPT_BEFORE_AND_AFTER_INSTALL;
           cpt_other := () |})).

Definition stored_cpts : @CPTList () :=
  {| cpt_store := cpt_objects; cpt_collection := [0; 1] |}.

End SampleObjects.

Module SampleMore.
Import DStability.

(** The sample document with one more attribute, which its class does not
    annotate. *)
Definition ds_with_secret : @DStabilityStructure string :=
  {| annotations := Sample.hints;
     attributes := PyDict.set "secret" (one "{secret}")
                     (attributes Sample.ds) |}.

(** A document whose list field holds a single model instead of a list. *)
Definition ds_single (data : string) : @DStabilityStructure string :=
  {| annotations := [("waternets", list_of Sample.Waternet)];
     attributes := populate [("waternets", one data)] |}.

End SampleMore.

Module SampleLookup.
Import DFoundations.

(** A [SoilCollection] instance made after the import of the module. *)
Definition collection : SoilCollection :=
  (SoilCollection_new SampleSoils.cls SampleSoils.h).1.
Definition h : @heap string :=
  (SoilCollection_new SampleSoils.cls SampleSoils.h).2.

End SampleLookup.

(** ** Further parts of the two files *)

(** *** What the folder writer leaves on disk *)

Module Layout.
Import DStability.


Section layout.
Context {path : Type}.
Variable truediv : path → string → path.

(** The path of every file named by a serialized structure, with the text
    the structure holds for it. *)
Definition file_contents (filepath : path)
    (serialized_datastructure : list (string * entry))
  : list (path * string) :=
  serialized_datastructure ≫= λ kv,
    match kv.2 with
    | File data => [(truediv filepath kv.1, data)]
    | Folder data =>
        (λ f, (truediv (truediv filepath kv.1) f.1, f.2)) <$> data
    end.

(** The path of every folder named by a serialized structure. *)
Definition folder_paths (filepath : path)
    (serialized_datastructure : list (string * entry)) : list path :=
  serialized_datastructure ≫= λ kv,
    match kv.2 with
    | File _ => []
    | Folder _ => [truediv filepath kv.1]
    end.

Variable parents : path → list path.

(** What holds of a file system in which the file [pt.1] has been written
    with the text [pt.2]: it holds the text, and stands in a directory. *)
Definition written_at (F : path → option node) (pt : path * string) : Prop :=
  F pt.1 = Some (Regular (Str.encode_utf8 pt.2))
  ∧ ∀ d, list.last (parents pt.1) = Some d → F d = Some Dir.

End layout.

(** A folder without files. *)
Definition is_empty_folder (e : entry) : bool :=
  match e with
  | Folder [] => true
  | _ => false
  end.

(** The name under which the zip writer stores the file [ffilename] of the
    folder [folder]: one slash between them. *)
Definition member_name (folder ffilename : string) : string :=
  if decide (Str.last folder = Some "/"%char)
  then folder +:+ ffilename
  else folder +:+ "/" +:+ ffilename.

(** The members that a serialized structure asks for, each with its name
    and its text, and their names. *)
Definition members (serialized_datastructure : list (string * entry))
  : list (string * string) :=
  serialized_datastructure ≫= λ kv,
    match kv.2 with
    | File data => [(kv.1, data)]
    | Folder data => (λ f, (member_name kv.1 f.1, f.2)) <$> data
    end.

Definition member_names (serialized_datastructure : list (string * entry))
  : list string :=
  (members serialized_datastructure).*1.

(** A name that reads as a relative path on every platform, and that
    [ZipInfo] keeps as it is: it is not empty, does not start with a slash
    and has no backslash, no colon and no NUL. *)
Definition portable (s : string) : bool :=
  bool_decide (s ≠ "")
  && negb (Str.startswith "/" s)
  && negb (Str.contains Str.backslash s)
  && negb (Str.contains ":"%char s)
  && negb (Str.contains Str.NUL s).

(** Every key of a serialized structure, and every file name of a folder
    of it, is portable. *)
Definition portable_names (serialized_datastructure : list (string * entry))
  : Prop :=
  Forall (λ kv, portable kv.1 = true
                ∧ match kv.2 with
                  | File _ => True
                  | Folder data => Forall (λ f, portable f.1 = true) data
                  end)
         serialized_datastructure.

End Layout.

(** *** Lookups in [SoilCollection] and [CPTList] *)

Module Lookup.
Import DFoundations.

(** The key of [self[key]]: an [int], a [str], or anything else. *)
Inductive key :=
  | KInt (i : Z)
  | KStr (s : string)
  | KOther.

(** How a lookup ends: it returns a value, falls off the end of
    [__getitem__] (and so returns [None]), or raises. *)
Inductive answer (A : Type) :=
  | Returns (a : A)
  | ReturnsNone
  | RaisesKeyError (arg : string)
  | RaisesIndexError.
Arguments Returns {A} a.
Arguments ReturnsNone {A}.
Arguments RaisesKeyError {A} arg.
Arguments RaisesIndexError {A}.

(** [l[i]] for an [int] [i]: a negative index counts from the end. *)
Definition list_getitem {A} (l : list A) (i : Z) : answer A :=
  let n := Z.of_nat (length l) in
  if decide (0 ≤ i < n)%Z then
    from_option Returns RaisesIndexError (l !! Z.to_nat i)
  else if decide (- n ≤ i < 0)%Z then
    from_option Returns RaisesIndexError (l !! Z.to_nat (n + i))
  else RaisesIndexError.

Section soils.
Context {Soil : Type}.
Variable soil_name : Soil → string.

(** The loop of [find_soil_id] over [enumerate(self.soil)], from index [i]
    on. *)
Fixpoint find_soil_from (key : string) (i : nat) (soils : list Soil)
  : answer nat :=
  match soils with
  | [] => RaisesKeyError ("Soil with " +:+ key +:+ " not present.")
  | soil :: soils' =>
      if decide (soil_name soil = key) then Returns i
      else find_soil_from key (S i) soils'
  end.

(** [SoilCollection.find_soil_id] *)
Definition find_soil_id (self : SoilCollection) (key : string)
    (h : @heap Soil) : answer nat :=
  find_soil_from key 0 (lists h (soil self)).

(** The loop of [__getitem__] for a [str] key. *)
Fixpoint soil_named (key : string) (soils : list Soil) : answer Soil :=
  match soils with
  | [] => RaisesKeyError key
  | soil :: soils' =>
      if decide (soil_name soil = key) then Returns soil
      else soil_named key soils'
  end.

(** [SoilCollection.__getitem__] *)
Definition SoilCollection_getitem (self : SoilCollection) (k : key)
    (h : @heap Soil) : answer Soil :=
  match k with
  | KInt i => list_getitem (lists h (soil self)) i
  | KStr s => soil_named s (lists h (soil self))
  | KOther => ReturnsNone
  end.

End soils.

Section cpts.
Context {Other : Type}.

(** The loop of [__getitem__] for a [str] key: the CPTs are reached
    through their references. *)
Fixpoint cpt_named (store : loc → @CPT Other) (key : string)
    (cpts : list loc) : answer loc :=
  match cpts with
  | [] => RaisesKeyError key
  | cpt :: cpts' =>
      if decide (cptname (store cpt) = key) then Returns cpt
      else cpt_named store key cpts'
  end.

(** [CPTList.__getitem__] *)
Definition CPTList_getitem (self : @CPTList Other) (k : key) : answer loc :=
  match k with
  | KInt i => list_getitem (cpt_collection self) i
  | KStr s => cpt_named (cpt_store self) s (cpt_collection self)
  | KOther => ReturnsNone
  end.

End cpts.
End Lookup.

(** * Part II: properties *)

(** ** Strings *)

Lemma str_app_nil_l (s : string) : "" +:+ s = s.
Proof. done. Qed.

Lemma str_app_cons (a : ascii) (s t : string) :
  String a s +:+ t = String a (s +:+ t).
Proof. done. Qed.

Lemma str_length_app (s t : string) :
  String.length (s +:+ t) = String.length s + String.length t.
Proof.
  induction s as [|a s IH]; [done|].
  rewrite str_app_cons. simpl. by rewrite IH.
Qed.

(** A common suffix cancels. *)
Lemma str_app_inj_r (s1 s2 t : string) : s1 +:+ t = s2 +:+ t → s1 = s2.
Proof.
  revert s2. induction s1 as [|a s1 IH]; intros [|b s2] Heq.
  - done.
  - apply (f_equal String.length) in Heq.
    rewrite str_app_nil_l, str_app_cons in Heq. simpl in Heq.
    rewrite str_length_app in Heq. lia.
  - apply (f_equal String.length) in Heq.
    rewrite str_app_nil_l, str_app_cons in Heq. simpl in Heq.
    rewrite str_length_app in Heq. lia.
  - rewrite !str_app_cons in Heq. injection Heq as -> Heq.
    f_equal. by apply IH.
Qed.

Lemma startswith_app (p s : string) : Str.startswith p (p +:+ s) = true.
Proof.
  induction p as [|a p IH]; [done|]. rewrite str_app_cons. simpl.
  by rewrite decide_True.
Qed.

Lemma startswith_inv (p s : string) :
  Str.startswith p s = true → s = p +:+ Str.drop (String.length p) s.
Proof.
  revert s. induction p as [|a p IH]; intros s Hs; simpl in *.
  - done.
  - destruct s as [|b s]; [done|]. case_decide; [|done]. subst b.
    rewrite str_app_cons. f_equal. by apply IH.
Qed.

Lemma drop_app (p s : string) : Str.drop (String.length p) (p +:+ s) = s.
Proof.
  induction p as [|a p IH]; [done|]. rewrite str_app_cons. simpl. apply IH.
Qed.

Lemma strip_prefix_app (p s : string) : Str.strip_prefix p (p +:+ s) = Some s.
Proof.
  unfold Str.strip_prefix. by rewrite startswith_app, drop_app.
Qed.

Lemma strip_suffix_app (suf s : string) :
  Str.strip_suffix suf (s +:+ suf) = Some s.
Proof.
  induction s as [|a s IH].
  - rewrite str_app_nil_l. destruct suf as [|c suf]; [done|].
    simpl. by rewrite decide_True.
  - rewrite str_app_cons. simpl. rewrite decide_False.
    + by rewrite IH.
    + intros Heq. apply (f_equal String.length) in Heq. simpl in Heq.
      rewrite str_length_app in Heq. lia.
Qed.

(** ** Python dictionaries *)

Section dict_facts.
Context {K V : Type} `{EqDecision K}.
Implicit Types (k : K) (v : V) (d : list (K * V)).

Lemma dict_get_set_eq k v d : PyDict.get k (PyDict.set k v d) = Some v.
Proof.
  induction d as [|[k' v'] d IH]; simpl.
  - by rewrite decide_True.
  - destruct (decide (k' = k)) as [->|Hne]; simpl.
    + by rewrite decide_True.
    + by rewrite decide_False.
Qed.

Lemma dict_get_set_ne k k' v d :
  k ≠ k' → PyDict.get k' (PyDict.set k v d) = PyDict.get k' d.
Proof.
  intros Hne. induction d as [|[k0 v0] d IH]; simpl.
  - by rewrite decide_False.
  - destruct (decide (k0 = k)) as [->|Hne0]; simpl.
    + by rewrite !decide_False.
    + destruct (decide (k0 = k')); auto.
Qed.

Lemma dict_get_None k d : PyDict.get k d = None ↔ k ∉ PyDict.keys d.
Proof.
  unfold PyDict.keys. induction d as [|[k' v'] d IH]; csimpl.
  - split; [intros _; apply not_elem_of_nil | done].
  - rewrite not_elem_of_cons. destruct (decide (k' = k)) as [->|Hne].
    + split; [done | intros [? _]; done].
    + rewrite IH. split; [intros ?; split; [congruence | done] | tauto].
Qed.

Lemma dict_get_Some_elem k v d : PyDict.get k d = Some v → (k, v) ∈ d.
Proof.
  induction d as [|[k' v'] d IH]; simpl; [done|].
  destruct (decide (k' = k)) as [->|Hne].
  - intros [= ->]. apply list_elem_of_here.
  - intros H'. apply list_elem_of_further. auto.
Qed.

Lemma dict_get_elem_nodup k v d :
  NoDup (PyDict.keys d) → (k, v) ∈ d → PyDict.get k d = Some v.
Proof.
  unfold PyDict.keys. induction d as [|[k' v'] d IH]; csimpl.
  - intros _ Hin. by apply elem_of_nil in Hin.
  - rewrite NoDup_cons. intros [Hnotin Hnd] Hin.
    apply elem_of_cons in Hin as [[= <- <-]|Hin].
    + by rewrite decide_True.
    + rewrite decide_False; [auto|].
      intros ->. apply Hnotin. apply list_elem_of_fmap. by exists (k, v).
Qed.

Lemma dict_set_notin k v d : k ∉ PyDict.keys d → PyDict.set k v d = d ++ [(k, v)].
Proof.
  unfold PyDict.keys. induction d as [|[k' v'] d IH]; csimpl; [done|].
  rewrite not_elem_of_cons. intros [Hne Hnotin].
  rewrite decide_False by congruence. by rewrite IH.
Qed.

Lemma dict_keys_set_in k v d :
  k ∈ PyDict.keys d → PyDict.keys (PyDict.set k v d) = PyDict.keys d.
Proof.
  unfold PyDict.keys. induction d as [|[k' v'] d IH]; csimpl.
  - intros Hin. by apply elem_of_nil in Hin.
  - destruct (decide (k' = k)) as [->|Hne]; csimpl; [done|].
    rewrite elem_of_cons. intros [->|Hin]; [done|]. f_equal. by apply IH.
Qed.

Lemma dict_keys_set_notin k v d :
  k ∉ PyDict.keys d → PyDict.keys (PyDict.set k v d) = PyDict.keys d ++ [k].
Proof.
  intros Hnotin. rewrite dict_set_notin by done.
  unfold PyDict.keys. by rewrite fmap_app.
Qed.

Lemma dict_keys_set k v d :
  PyDict.keys (PyDict.set k v d)
  = if decide (k ∈ PyDict.keys d) then PyDict.keys d else PyDict.keys d ++ [k].
Proof.
  case_decide; [by apply dict_keys_set_in | by apply dict_keys_set_notin].
Qed.

(** What [d[k] = v] leaves in a dictionary. *)
Lemma dict_set_elem k v d kv :
  kv ∈ PyDict.set k v d → kv = (k, v) ∨ kv ∈ d.
Proof.
  induction d as [|[k' v'] d IH]; simpl.
  - intros Hin%list_elem_of_singleton. by left.
  - case_decide as Hk.
    + subst k'. intros [->|Hin]%elem_of_cons; [by left|].
      right. by apply list_elem_of_further.
    + intros [->|Hin]%elem_of_cons; [right; apply list_elem_of_here|].
      destruct (IH Hin) as [->|Hd]; [by left|].
      right. by apply list_elem_of_further.
Qed.

Lemma dict_set_key k v d : k ∈ (PyDict.set k v d).*1.
Proof.
  assert (PyDict.get k (PyDict.set k v d) = Some v) as Hget
    by apply dict_get_set_eq.
  apply dict_get_Some_elem in Hget.
  apply list_elem_of_fmap. by exists (k, v).
Qed.

Lemma dict_set_keys_mono k k' v d :
  k' ∈ d.*1 → k' ∈ (PyDict.set k v d).*1.
Proof.
  intros Hin. fold (PyDict.keys (PyDict.set k v d)).
  rewrite dict_keys_set. case_decide; [done|].
  apply elem_of_app. by left.
Qed.

Lemma dict_get_app_l k d1 d2 v :
  PyDict.get k d1 = Some v → PyDict.get k (d1 ++ d2) = Some v.
Proof.
  induction d1 as [|[k' v'] d1 IH]; simpl; [done|].
  by case_decide.
Qed.

(** After [d.update(other)] a key that [other] lacks keeps its value, and a
    key of [other] has the value [other] gives it. *)
Lemma dict_get_update_notin k d other :
  k ∉ other.*1 → PyDict.get k (PyDict.update d other) = PyDict.get k d.
Proof.
  unfold PyDict.update. revert d.
  induction other as [|[k' v'] other IH]; intros d; csimpl.
  - done.
  - rewrite not_elem_of_cons. intros [Hne Hnotin].
    rewrite IH by done. by apply dict_get_set_ne.
Qed.

Lemma dict_get_update_elem k v d other :
  NoDup other.*1 → (k, v) ∈ other →
  PyDict.get k (PyDict.update d other) = Some v.
Proof.
  revert d. induction other as [|[k' v'] other IH]; intros d; csimpl.
  - intros _ Hin. by apply elem_of_nil in Hin.
  - rewrite NoDup_cons. intros [Hnotin Hnd] Hin.
    apply elem_of_cons in Hin as [[= <- <-]|Hin].
    + unfold PyDict.update. simpl.
      fold (PyDict.update (PyDict.set k v d) other).
      rewrite dict_get_update_notin by done. apply dict_get_set_eq.
    + unfold PyDict.update. simpl. by apply IH.
Qed.

(** Every value of a dictionary of which all entries were set to [v] is
    [v]. *)
Lemma dict_get_update_const k v d other :
  (∀ kv, kv ∈ other → kv.2 = v) → k ∈ other.*1 →
  PyDict.get k (PyDict.update d other) = Some v.
Proof.
  unfold PyDict.update. revert d.
  induction other as [|[k' v'] other IH]; intros d Hall Hin; csimpl in *.
  - by apply elem_of_nil in Hin.
  - assert (v' = v) as -> by (apply (Hall (k', v')), list_elem_of_here).
    destruct (decide (k ∈ other.*1)) as [Hin'|Hnotin].
    + apply IH; [|done]. intros kv Hkv. apply Hall. by apply list_elem_of_further.
    + apply elem_of_cons in Hin as [->|Hin]; [|done].
      fold (PyDict.update (PyDict.set k' v d) other).
      rewrite dict_get_update_notin by done. apply dict_get_set_eq.
Qed.

End dict_facts.

(** ** The result monad *)

Lemma bind_Ok {A B} (f : A → result B) (m : result A) (b : B) :
  m ≫= f = Ok b → ∃ a, m = Ok a ∧ f a = Ok b.
Proof. destruct m as [a|e]; [by exists a | done]. Qed.

(** ** [DStabilityBaseSerializer.serialize] *)

Section serialize_facts.
Import DStability.
Context {Data : Type} `{!Iterable Data} (model_dump_json : Data → string).
Implicit Types (ds : @DStabilityStructure Data) (X : model_type).

Local Abbreviation serialize_elements := (serialize_elements model_dump_json).
Local Abbreviation serialize_field := (serialize_field model_dump_json).
Local Abbreviation serialize_fields := (serialize_fields model_dump_json).
Local Abbreviation serialize := (serialize model_dump_json).
Local Abbreviation folder_files := (folder_files model_dump_json).

(** Distinct indices give distinct file names. *)
Lemma json_name_inj X i j : json_name X i = json_name X j → i = j.
Proof.
  unfold json_name. intros Heq. apply (inj (String.app _)) in Heq.
  apply str_app_inj_r in Heq.
  destruct (decide (0 < i)), (decide (0 < j)).
  - apply (inj (String.app "_")) in Heq. by apply (inj pretty) in Heq.
  - done.
  - done.
  - lia.
Qed.

Lemma folder_files_keys X (elems : list Data) :
  PyDict.keys (folder_files X elems) = json_name X <$> seq 0 (length elems).
Proof.
  unfold PyDict.keys, DStability.folder_files.
  rewrite fmap_imap. apply (imap_seq_0 elems (json_name X)).
Qed.

Lemma folder_files_nodup X (elems : list Data) :
  NoDup (PyDict.keys (folder_files X elems)).
Proof.
  rewrite folder_files_keys. apply NoDup_fmap_2; [|apply NoDup_seq].
  intros i j. apply json_name_inj.
Qed.

Lemma folder_files_get X (elems : list Data) i data :
  elems !! i = Some data →
  PyDict.get (json_name X i) (folder_files X elems)
  = Some (model_dump_json data).
Proof.
  intros Hi. apply dict_get_elem_nodup; [apply folder_files_nodup|].
  unfold DStability.folder_files.
  by apply (elem_of_lookup_imap_2
              (λ i data, (json_name X i, model_dump_json data))).
Qed.

Lemma folder_files_snoc X (elems : list Data) data :
  folder_files X (elems ++ [data])
  = folder_files X elems ++ [(json_name X (length elems), model_dump_json data)].
Proof.
  unfold DStability.folder_files. rewrite imap_app. simpl.
  by rewrite Nat.add_0_r.
Qed.

(** The inner loop, started after the elements [done_] were written, leaves
    the files of all elements. *)
Lemma serialize_elements_from X (done_ elems : list Data) :
  serialize_elements X (length done_) elems (folder_files X done_)
  = folder_files X (done_ ++ elems).
Proof.
  revert done_. induction elems as [|data elems IH]; intros done_; simpl.
  - by rewrite app_nil_r.
  - fold (json_name X (length done_)).
    rewrite dict_set_notin.
    + rewrite <- folder_files_snoc.
      replace (S (length done_)) with (length (done_ ++ [data]))
        by (rewrite length_app; simpl; lia).
      rewrite IH. by rewrite <- app_assoc.
    + rewrite folder_files_keys. intros Hin.
      apply list_elem_of_fmap in Hin as (j & Hj & Hin).
      apply json_name_inj in Hj. subst j.
      apply elem_of_seq in Hin. lia.
Qed.

Lemma serialize_elements_files X (elems : list Data) :
  serialize_elements X 0 elems [] = folder_files X elems.
Proof. apply (serialize_elements_from X [] elems). Qed.

(** The loop body stores a field under its entry name. *)
Lemma serialize_field_name ds hint kv :
  serialize_field ds hint = Ok kv → kv.1 = entry_name hint.2.
Proof.
  destruct hint as [field [element_type|X]]; simpl;
    destruct (getattr ds field) as [[data|elems]|]; try case_decide;
    intros [= <-]; done.
Qed.

(** The value the loop body stores, by the annotation of the field and by
    what the attribute holds. *)
Lemma serialize_field_many ds field X elems :
  getattr ds field = Some (many elems) →
  serialize_field ds (field, list_of X)
  = Ok (structure_group X, Folder (folder_files X elems)).
Proof. simpl. intros ->. by rewrite serialize_elements_files. Qed.

Lemma serialize_field_list ds field X kv :
  serialize_field ds (field, list_of X) = Ok kv →
  ∃ elems,
    kv = (structure_group X, Folder (folder_files X elems))
    ∧ (getattr ds field = Some (many elems)
       ∨ elems = []
         ∧ ∃ data, getattr ds field = Some (one data) ∧ iter_count data = 0).
Proof.
  simpl. destruct (getattr ds field) as [[data|elems]|]; [| |done].
  - case_decide; intros [= <-]. exists []. split; [done|]. right. eauto.
  - intros [= <-]. exists elems. rewrite serialize_elements_files. eauto.
Qed.

Lemma serialize_field_plain ds field X kv :
  serialize_field ds (field, plain X) = Ok kv →
  ∃ data, getattr ds field = Some (one data)
          ∧ kv = (structure_name X +:+ ".json", File (model_dump_json data)).
Proof.
  simpl. destruct (getattr ds field) as [[data|elems]|]; intros [= <-].
  by exists data.
Qed.


(** A key that no remaining field is stored under keeps its value. *)
Lemma serialize_fields_frame ds hints acc out k :
  serialize_fields ds hints acc = Ok out →
  k ∉ entry_name <$> hints.*2 →
  PyDict.get k out = PyDict.get k acc.
Proof.
  revert acc. induction hints as [|hint hints IH]; intros acc; csimpl.
  - by intros [= ->].
  - intros Hout Hk. apply bind_Ok in Hout as (kv & Hkv & Hout).
    apply not_elem_of_cons in Hk as [Hne Hk].
    rewrite (IH _ Hout Hk). apply dict_get_set_ne.
    rewrite (serialize_field_name _ _ _ Hkv). congruence.
Qed.

(** The last field stored under a key decides its value. *)
Lemma serialize_fields_last ds before hint after acc out :
  serialize_fields ds (before ++ hint :: after) acc = Ok out →
  entry_name hint.2 ∉ entry_name <$> after.*2 →
  ∃ kv, serialize_field ds hint = Ok kv
        ∧ kv.1 = entry_name hint.2
        ∧ PyDict.get kv.1 out = Some kv.2.
Proof.
  revert acc. induction before as [|h before IH]; intros acc; csimpl.
  - intros Hout Hk. apply bind_Ok in Hout as (kv & Hkv & Hout).
    exists kv. split_and!; [done|by eapply serialize_field_name|].
    rewrite (serialize_fields_frame _ _ _ _ kv.1 Hout).
    + apply dict_get_set_eq.
    + by rewrite (serialize_field_name _ _ _ Hkv).
  - intros Hout Hk. apply bind_Ok in Hout as (kv & Hkv & Hout). eauto.
Qed.

(** The keys come in the order of their first insertion. *)
Lemma serialize_fields_keys ds hints acc out :
  serialize_fields ds hints acc = Ok out →
  PyDict.keys out
  = insertion_order (PyDict.keys acc) (entry_name <$> hints.*2).
Proof.
  revert acc. induction hints as [|hint hints IH]; intros acc; csimpl.
  - by intros [= ->].
  - intros Hout. apply bind_Ok in Hout as (kv & Hkv & Hout).
    rewrite (IH _ Hout). unfold insertion_order. simpl.
    by rewrite dict_keys_set, (serialize_field_name _ _ _ Hkv).
Qed.

(** Every entry of the result was in the dictionary at the start or is
    what the loop body stores for a field. *)
Lemma serialize_fields_origin ds hints acc out k e :
  serialize_fields ds hints acc = Ok out →
  PyDict.get k out = Some e →
  PyDict.get k acc = Some e
  ∨ ∃ hint, hint ∈ hints ∧ serialize_field ds hint = Ok (k, e).
Proof.
  revert acc. induction hints as [|hint hints IH]; intros acc; csimpl.
  - intros [= ->] ?. by left.
  - intros Hout Hget. apply bind_Ok in Hout as (kv & Hkv & Hout).
    destruct (IH _ Hout Hget) as [Hacc|(h & Hin & Hh)].
    + destruct (decide (kv.1 = k)) as [<-|Hne].
      * rewrite dict_get_set_eq in Hacc. injection Hacc as <-.
        right. exists hint. split; [apply list_elem_of_here|].
        by destruct kv.
      * rewrite dict_get_set_ne in Hacc by done. by left.
    + right. exists h. split; [by apply list_elem_of_further | done].
Qed.

(** A property of the entries at the start and of what the loop body
    stores holds of all entries of the result. *)
Lemma serialize_fields_Forall (P : string * entry → Prop) ds hints acc out :
  Forall P acc →
  (∀ hint kv, hint ∈ hints → serialize_field ds hint = Ok kv → P kv) →
  serialize_fields ds hints acc = Ok out →
  Forall P out.
Proof.
  revert acc. induction hints as [|hint hints IH]; intros acc Hacc Hbody; simpl.
  - by intros [= <-].
  - intros Hout. apply bind_Ok in Hout as (kv & Hkv & Hout).
    apply (IH (PyDict.set kv.1 kv.2 acc)); [| |done].
    + apply Forall_forall. intros x [->|Hx]%dict_set_elem.
      * destruct kv. apply (Hbody hint); [apply list_elem_of_here | done].
      * rewrite Forall_forall in Hacc. auto.
    + intros h kv' Hin. apply Hbody. by apply list_elem_of_further.
Qed.

(** On a document whose attributes have the annotated shapes the loop
    returns. *)
Lemma serialize_fields_total ds hints acc :
  (∀ field fieldtype, (field, fieldtype) ∈ hints →
     match fieldtype with
     | list_of _ => ∃ elems, getattr ds field = Some (many elems)
     | plain _ => ∃ data, getattr ds field = Some (one data)
     end) →
  ∃ out, serialize_fields ds hints acc = Ok out.
Proof.
  revert acc. induction hints as [|[field ty] hints IH]; intros acc Hwt; simpl.
  - by exists acc.
  - pose proof (Hwt field ty (list_elem_of_here _ _)) as Hfield.
    destruct ty as [X|X]; destruct Hfield as [x ->]; simpl;
      apply IH; intros f t Hin; apply Hwt; by apply list_elem_of_further.
Qed.

Lemma serialize_total ds : well_typed ds → ∃ out, serialize ds = Ok out.
Proof. intros Hwt. by apply serialize_fields_total. Qed.

(** The loop reads the document through [getattr] only. *)
Lemma serialize_fields_ext ds1 ds2 hints acc :
  (∀ field, getattr ds1 field = getattr ds2 field) →
  serialize_fields ds1 hints acc = serialize_fields ds2 hints acc.
Proof.
  intros Hget. revert acc.
  induction hints as [|[field ty] hints IH]; intros acc; simpl; [done|].
  rewrite Hget.
  destruct ty, (getattr ds2 field) as [[?|?]|]; simpl; try case_decide;
    simpl; auto.
Qed.

(** Without a repeated name the insertion order is the order given. *)
Lemma insertion_order_nodup (ks names : list string) :
  NoDup (ks ++ names) → insertion_order ks names = ks ++ names.
Proof.
  unfold insertion_order. revert ks.
  induction names as [|k names IH]; intros ks Hnd; simpl.
  - by rewrite app_nil_r.
  - assert (k ∉ ks) as Hk.
    { apply NoDup_app in Hnd as (_ & Hdisj & _).
      intros Hin. apply (Hdisj k Hin), list_elem_of_here. }
    rewrite decide_False by done.
    rewrite IH; rewrite <- app_assoc; done.
Qed.

(** The attributes after [populate]: the order of the assignments does not
    matter when no attribute is assigned twice. *)
Lemma populate_get (assignments : list (string * @attr Data)) field v :
  NoDup assignments.*1 → (field, v) ∈ assignments →
  PyDict.get field (populate assignments) = Some v.
Proof. apply dict_get_update_elem. Qed.

Lemma populate_permutation (a1 a2 : list (string * @attr Data)) field :
  NoDup a1.*1 → a1 ≡ₚ a2 →
  PyDict.get field (populate a1) = PyDict.get field (populate a2).
Proof.
  intros Hnd Hperm.
  assert (NoDup a2.*1) as Hnd2 by (by rewrite <- Hperm).
  destruct (PyDict.get field (populate a1)) as [v|] eqn:H1.
  - symmetry. apply populate_get; [done|]. rewrite <- Hperm.
    unfold populate in H1.
    destruct (decide (field ∈ a1.*1)) as [Hin|Hnotin].
    + apply list_elem_of_fmap in Hin as ([f v'] & -> & Hin).
      rewrite (dict_get_update_elem _ v' [] a1 Hnd Hin) in H1.
      by injection H1 as <-.
    + by rewrite dict_get_update_notin in H1.
  - symmetry. unfold populate in *.
    destruct (decide (field ∈ a2.*1)) as [Hin|Hnotin].
    + apply list_elem_of_fmap in Hin as ([f v'] & -> & Hin).
      rewrite <- Hperm in Hin.
      by rewrite (dict_get_update_elem _ v' [] a1 Hnd Hin) in H1.
    + by rewrite dict_get_update_notin.
Qed.

End serialize_facts.

(** ** Characters of a name *)

Lemma contains_app (c : ascii) (a b : string) :
  Str.contains c (a +:+ b) = Str.contains c a || Str.contains c b.
Proof.
  induction a as [|x a IH]; [done|]. rewrite str_app_cons. simpl.
  by case_decide.
Qed.

Lemma contains_before (c d : ascii) (s : string) :
  Str.contains c s = false → Str.contains c (Str.before d s) = false.
Proof.
  induction s as [|x s IH]; [done|]. simpl.
  destruct (decide (x = c)); [done|]. intros Hs.
  destruct (decide (x = d)); [done|]. simpl. by rewrite decide_False, IH.
Qed.

(** A name without the character is not cut at it, and nothing of it is
    replaced. *)
Lemma before_absent (c : ascii) (s : string) :
  Str.contains c s = false → Str.before c s = s.
Proof.
  induction s as [|x s IH]; [done|]. simpl.
  destruct (decide (x = c)); [done|]. intros Hs. by rewrite IH.
Qed.

Lemma replace_absent (c : ascii) (new s : string) :
  Str.contains c s = false → Str.replace (String c "") new s = s.
Proof.
  unfold Str.replace. induction s as [|x s IH]; [done|]. simpl.
  destruct (decide (x = c)) as [->|Hx]; [done|]. intros Hs.
  rewrite decide_False by done. by rewrite IH.
Qed.

(** The sample [ZipInfo] of a name without a backslash differs in
    [create_system] at most between the platforms. *)
Lemma sample_zipinfo_same (name : string) :
  Str.contains Str.backslash name = false →
  DStability.set_create_system 0 (SampleZip.ZipInfo_new SampleZip.linux name)
  = DStability.set_create_system 0
      (SampleZip.ZipInfo_new SampleZip.win32 name).
Proof.
  intros Hname. unfold DStability.set_create_system, SampleZip.ZipInfo_new.
  simpl. f_equal. symmetry. by apply replace_absent, contains_before.
Defined.

(** ** The layout and the order of the serialized structure *)

Section serialize_claims.
Import DStability.
Context {Data : Type} `{!Iterable Data} (model_dump_json : Data → string).
Implicit Types (ds : @DStabilityStructure Data) (X : model_type).

(** C1.  Take a document whose attributes have the annotated shapes, and a
    field of it such that no field declared after it is stored under the
    same name (the names of the D-Stability schema are pairwise distinct).
    Then [serialize] returns a structure in which, if the type of the field
    is [list[X]], [X.structure_group()] is one folder with a file per
    element of the list, element 0 in [<X.structure_name()>.json] and every
    element [i > 0] in [<X.structure_name()>_<i>.json]; and in which
    otherwise the field is the file [<X.structure_name()>.json] at the
    root. *)
Theorem serialize_layout ds before field fieldtype after :
  well_typed ds →
  annotations ds = before ++ (field, fieldtype) :: after →
  entry_name fieldtype ∉ entry_name <$> after.*2 →
  ∃ out,
    serialize model_dump_json ds = Ok out
    ∧ match fieldtype with
      | list_of X =>
          ∃ elems files,
            getattr ds field = Some (many elems)
            ∧ PyDict.get (structure_group X) out = Some (Folder files)
            ∧ length files = length elems
            ∧ (∀ data, elems !! 0 = Some data →
                 PyDict.get (structure_name X +:+ ".json") files
                 = Some (model_dump_json data))
            ∧ (∀ i data, 0 < i → elems !! i = Some data →
                 PyDict.get
                   (structure_name X +:+ "_" +:+ pretty i +:+ ".json") files
                 = Some (model_dump_json data))
      | plain X =>
          ∃ data,
            getattr ds field = Some (one data)
            ∧ PyDict.get (structure_name X +:+ ".json") out
              = Some (File (model_dump_json data))
      end.
Proof.
  intros Hwt Hann Hlast.
  destruct (serialize_total model_dump_json ds Hwt) as [out Hout].
  exists out. split; [done|].
  unfold serialize, get_filtered_type_hints in Hout. rewrite Hann in Hout.
  destruct (serialize_fields_last _ _ _ _ _ _ _ Hout Hlast)
    as (kv & Hkv & _ & Hget).
  destruct fieldtype as [X|X].
  - destruct (Hwt field (list_of X)) as [elems Hattr].
    { rewrite Hann. apply elem_of_app. right. apply list_elem_of_here. }
    rewrite (serialize_field_many _ _ _ _ _ Hattr) in Hkv.
    injection Hkv as <-.
    exists elems, (folder_files model_dump_json X elems).
    split_and!; [done|done| | |].
    + unfold folder_files. apply length_imap.
    + intros data H0. apply (folder_files_get model_dump_json X elems 0 data H0).
    + intros i data Hi Hdata.
      pose proof (folder_files_get model_dump_json X elems i data Hdata) as Hfile.
      unfold json_name in Hfile. by rewrite decide_True in Hfile.
  - apply serialize_field_plain in Hkv as (data & Hattr & ->).
    by exists data.
Qed.

(** C3.  A document populated by the assignments [a1], in any order, with
    attributes of the annotated shapes, has a serialized structure whose
    top-level keys follow the declaration order of the fields (each key at
    the place of the first field stored under it; the names of the fields
    themselves when they are distinct), and every folder of which holds the
    files of the list of a declared field in the order of its elements.
    Populating the document in another order [a2] gives the same
    structure. *)
Theorem serialize_order (hints : list (string * fieldtype))
    (a1 a2 : list (string * attr)) :
  NoDup a1.*1 → a1 ≡ₚ a2 →
  well_typed {| annotations := hints; attributes := populate a1 |} →
  ∃ out,
    serialize model_dump_json
      {| annotations := hints; attributes := populate a1 |} = Ok out
    ∧ serialize model_dump_json
        {| annotations := hints; attributes := populate a2 |} = Ok out
    ∧ PyDict.keys out = insertion_order [] (entry_name <$> hints.*2)
    ∧ (NoDup (entry_name <$> hints.*2) →
       PyDict.keys out = entry_name <$> hints.*2)
    ∧ (∀ k files, PyDict.get k out = Some (Folder files) →
         ∃ field X elems,
           (field, list_of X) ∈ hints
           ∧ k = structure_group X
           ∧ PyDict.get field (populate a1) = Some (many elems)
           ∧ ∀ i, files !! i
                  = (λ data, (json_name X i, model_dump_json data))
                      <$> elems !! i).
Proof.
  intros Hnd Hperm Hwt.
  destruct (serialize_total model_dump_json _ Hwt) as [out Hout].
  exists out. split; [done|].
  unfold serialize, get_filtered_type_hints in *.
  simpl in *. split_and!.
  - rewrite <- Hout. symmetry. apply serialize_fields_ext.
    intros field. unfold getattr. simpl.
    by apply populate_permutation.
  - apply (serialize_fields_keys _ _ _ _ _ Hout).
  - intros Hnames. rewrite (serialize_fields_keys _ _ _ _ _ Hout).
    by apply (insertion_order_nodup []).
  - intros k files Hget.
    destruct (serialize_fields_origin _ _ _ _ _ _ _ Hout Hget)
      as [Hacc|([field [X|X]] & Hin & Hfield)]; [done| |].
    + destruct (Hwt field (list_of X) Hin) as [elems Hattr].
      rewrite (serialize_field_many _ _ _ _ _ Hattr) in Hfield.
      injection Hfield as <- <-.
      exists field, X, elems. split_and!; [done..|].
      intros i. unfold folder_files. apply list_lookup_imap.
    + by apply serialize_field_plain in Hfield as (data & _ & [= _ ?]).
Qed.

End serialize_claims.

Lemma serialize_layout_witness :
  ∃ out,
    DStability.serialize id Sample.ds = Ok out
    ∧ ∃ elems files,
        DStability.getattr Sample.ds "waternets" = Some (DStability.many elems)
        ∧ PyDict.get "waternets" out = Some (DStability.Folder files)
        ∧ length files = length elems
        ∧ (∀ data, elems !! 0 = Some data →
             PyDict.get "waternet.json" files = Some data)
        ∧ (∀ i data, 0 < i → elems !! i = Some data →
             PyDict.get ("waternet" +:+ "_" +:+ pretty i +:+ ".json") files
             = Some data).
Proof.
  apply (serialize_layout id Sample.ds []
           "waternets" (DStability.list_of Sample.Waternet)
           [("soils", DStability.plain Sample.SoilCollection);
            ("uplift_van_results", DStability.list_of Sample.UpliftVanResult)]).
  - intros field fieldtype Hin.
    repeat (apply elem_of_cons in Hin as [[= -> ->]|Hin];
            [eexists; vm_compute; reflexivity|]).
    by apply elem_of_nil in Hin.
  - reflexivity.
  - vm_compute. intros Hin.
    repeat (apply elem_of_cons in Hin as [Hin|Hin]; [discriminate Hin|]).
    by apply elem_of_nil in Hin.
Defined.

Lemma serialize_order_witness :
  ∃ out,
    DStability.serialize id Sample.ds = Ok out
    ∧ DStability.serialize id Sample.ds_in_order = Ok out
    ∧ PyDict.keys out
      = DStability.insertion_order []
          (DStability.entry_name <$> Sample.hints.*2)
    ∧ (NoDup (DStability.entry_name <$> Sample.hints.*2) →
       PyDict.keys out = DStability.entry_name <$> Sample.hints.*2)
    ∧ (∀ k files,
         PyDict.get k out = Some (DStability.Folder files) →
         ∃ field X elems,
           (field, DStability.list_of X) ∈ Sample.hints
           ∧ k = DStability.structure_group X
           ∧ PyDict.get field (DStability.populate Sample.assignments)
             = Some (DStability.many elems)
           ∧ ∀ i, files !! i
                  = (λ data, (DStability.json_name X i, id data))
                      <$> elems !! i).
Proof.
  apply (serialize_order id Sample.hints Sample.assignments
           Sample.assignments_in_order).
  - vm_compute. repeat constructor; intros Hin;
      repeat (apply elem_of_cons in Hin as [Hin|Hin]; [discriminate Hin|]);
      by apply elem_of_nil in Hin.
  - apply (Permutation_app_comm
             [("soils", DStability.one "{soils}");
              ("uplift_van_results", DStability.many ["{r0}"])]
             [("waternets", DStability.many ["{w0}"; "{w1}"; "{w2}"])]).
  - intros field fieldtype Hin.
    repeat (apply elem_of_cons in Hin as [[= -> ->]|Hin];
            [eexists; vm_compute; reflexivity|]).
    by apply elem_of_nil in Hin.
Defined.

(** The serialized structure of the sample document. *)
Example serialize_sample :
  DStability.serialize id Sample.ds = Ok Sample.serialized.
Proof. vm_compute. reflexivity. Qed.

(** ** [CalculationType] and [DFoundationsNenPileResults] *)

Section simple_claims.
Import DFoundations.

(** C10.  A freshly constructed [CalculationType] keeps the sub type it was
    given (or the declared default), and its main type is
    [PRELIMINARY_DESIGN] if the integer value of the sub type is at least 2
    and [VERIFICATION_DESIGN] otherwise, whatever main type the caller
    supplied. *)
Theorem CalculationType_init_main
    (main : option MainCalculationType.t) (sub : option SubCalculationType.t) :
  sub_calculationtype (CalculationType_init main sub)
  = default SubCalculationType.INDICATION_BEARING_CAPACITY sub
  ∧ main_calculationtype (CalculationType_init main sub)
    = if decide (2 ≤ SubCalculationType.value
                       (sub_calculationtype (CalculationType_init main sub)))%Z
      then MainCalculationType.PRELIMINARY_DESIGN
      else MainCalculationType.VERIFICATION_DESIGN.
Proof.
  unfold CalculationType_init. simpl.
  destruct (decide (2 ≤ SubCalculationType.value
                          (default SubCalculationType.INDICATION_BEARING_CAPACITY
                             sub))%Z) as [Hge|Hlt]; simpl.
  - by rewrite decide_True.
  - by rewrite decide_False.
Qed.

(** C7.  [DFoundationsNenPileResults.header_lines()] returns 3, on
    whatever class it is invoked. *)
Theorem header_lines_three (cls : string) : header_lines cls = 3%Z.
Proof. reflexivity. Qed.

End simple_claims.

(** ** [CPTList.add_cpt] and [Profiles.add_profile_if_unique] *)

Section object_claims.
Import DFoundations.
Context {float Other : Type}.
Implicit Types (store : loc → @CPT Other) (pstore : loc → @Profile float Other).

(** The loop of [add_cpt] gives the time order of [cpt] to the CPTs it
    visits and leaves the others as they are. *)
Lemma force_timeorder_lookup (cpt : loc) (existing : list loc) store (c : loc) :
  force_timeorder cpt existing store c
  = if decide (c ∈ existing)
    then set_timeorder_type (timeorder_type (store cpt)) (store c)
    else store c.
Proof.
  unfold force_timeorder. revert store.
  induction existing as [|e existing IH]; intros store.
  - destruct (decide (c ∈ [])) as [Hin|_]; [by apply elem_of_nil in Hin|done].
  - cbn [foldl]. rewrite IH. clear IH.
    set (t := timeorder_type (store cpt)).
    assert (timeorder_type
              ((<[e := set_timeorder_type t (store e)]> store) cpt) = t) as ->.
    { destruct (decide (e = cpt)) as [->|Hne].
      - by rewrite fn_lookup_insert.
      - by rewrite fn_lookup_insert_ne. }
    destruct (decide (e = c)) as [->|Hne].
    + rewrite fn_lookup_insert.
      rewrite (decide_True (P := c ∈ c :: existing)) by apply list_elem_of_here.
      by case_decide.
    + rewrite fn_lookup_insert_ne by done.
      apply decide_ext. rewrite elem_of_cons.
      split; [by right | intros [Heq|Hin]; [congruence | done]].
Qed.

(** C8.  After [add_cpt(cpt)], every CPT of the collection has the time
    order of [cpt], which is the one [cpt] had before the call; [cpt] is the
    last element; and the returned value is the length of the collection
    minus one, the index of [cpt]. *)
Theorem add_cpt_spec (cpt : loc) (self : @CPTList Other) :
  Forall (λ c, timeorder_type (cpt_store (add_cpt cpt self).1 c)
               = timeorder_type (cpt_store (add_cpt cpt self).1 cpt))
         (cpt_collection (add_cpt cpt self).1)
  ∧ timeorder_type (cpt_store (add_cpt cpt self).1 cpt)
    = timeorder_type (cpt_store self cpt)
  ∧ list.last (cpt_collection (add_cpt cpt self).1) = Some cpt
  ∧ (add_cpt cpt self).2
    = (Z.of_nat (length (cpt_collection (add_cpt cpt self).1)) - 1)%Z
  ∧ cpt_collection (add_cpt cpt self).1 !! Z.to_nat (add_cpt cpt self).2
    = Some cpt.
Proof.
  unfold add_cpt. simpl.
  assert (∀ c, c ∈ cpt_collection self ++ [cpt] →
            timeorder_type
              (force_timeorder cpt (cpt_collection self) (cpt_store self) c)
            = timeorder_type (cpt_store self cpt)) as Hall.
  { intros c Hc. rewrite force_timeorder_lookup. case_decide; [done|].
    apply elem_of_app in Hc as [Hc|Hc]; [done|].
    apply list_elem_of_singleton in Hc. by subst. }
  split_and!.
  - apply Forall_forall. intros c Hc. rewrite (Hall c Hc).
    symmetry. apply Hall. apply elem_of_app. right. apply list_elem_of_here.
  - apply Hall. apply elem_of_app. right. apply list_elem_of_here.
  - apply last_snoc.
  - done.
  - rewrite length_app. simpl.
    replace (Z.to_nat (Z.of_nat (length (cpt_collection self) + 1) - 1))
      with (length (cpt_collection self)) by lia.
    by rewrite list_lookup_middle.
Qed.

(** An assignment to [excavation_level] keeps the names, and the level of
    [profile] when it is assigned its own level. *)
Lemma set_level_name (profile l x : loc) pstore :
  name ((<[l := set_excavation_level (excavation_level (pstore profile))
                  (pstore l)]> pstore) x)
  = name (pstore x).
Proof.
  destruct (decide (l = x)) as [->|Hne].
  - by rewrite fn_lookup_insert.
  - by rewrite fn_lookup_insert_ne.
Qed.

Lemma set_level_level (profile l : loc) pstore :
  excavation_level
    ((<[l := set_excavation_level (excavation_level (pstore profile))
               (pstore l)]> pstore) profile)
  = excavation_level (pstore profile).
Proof.
  destruct (decide (l = profile)) as [->|Hne].
  - by rewrite fn_lookup_insert.
  - by rewrite fn_lookup_insert_ne.
Qed.

(** The loop of [add_profile_if_unique]: it stops with [NameError] at the
    first stored profile that has the name of [profile], and has then
    overwritten the excavation level of the profiles up to that one; without
    such a profile it overwrites all of them. *)
Lemma add_profile_loop_spec (profile : loc) (todo : list loc) pstore :
  match list_find (λ l, name (pstore profile) = name (pstore l)) todo with
  | Some (k, _) =>
      (add_profile_loop profile todo pstore).2
      = Raise (NameError ("profile with name " +:+ name (pstore profile)
                          +:+ " already exists."))
      ∧ ∀ l, (add_profile_loop profile todo pstore).1 l
             = if decide (l ∈ take (S k) todo)
               then set_excavation_level (excavation_level (pstore profile))
                      (pstore l)
               else pstore l
  | None =>
      (add_profile_loop profile todo pstore).2 = Ok ()
      ∧ ∀ l, (add_profile_loop profile todo pstore).1 l
             = if decide (l ∈ todo)
               then set_excavation_level (excavation_level (pstore profile))
                      (pstore l)
               else pstore l
  end.
Proof.
  revert pstore. induction todo as [|a todo IH]; intros pstore.
  - cbn [add_profile_loop list_find]. split; [done|]. intros l.
    destruct (decide (l ∈ [])) as [Hin|_]; [by apply elem_of_nil in Hin|done].
  - cbn [add_profile_loop list_find].
    set (pstore1 := <[a := set_excavation_level
                             (excavation_level (pstore profile)) (pstore a)]>
                      pstore).
    assert (∀ x, name (pstore1 x) = name (pstore x)) as Hname
      by (intros x; apply set_level_name).
    assert (excavation_level (pstore1 profile)
            = excavation_level (pstore profile)) as Hlevel
      by apply set_level_level.
    rewrite !Hname.
    destruct (decide (name (pstore profile) = name (pstore a))) as [Heq|Hne].
    + simpl. split; [done|]. intros l. unfold pstore1.
      destruct (decide (a = l)) as [->|Hal].
      * rewrite fn_lookup_insert.
        by rewrite decide_True by apply list_elem_of_here.
      * rewrite fn_lookup_insert_ne by done.
        rewrite decide_False; [done|].
        rewrite take_0, list_elem_of_singleton. congruence.
    + specialize (IH pstore1).
      rewrite (list_find_ext _ (λ l, name (pstore profile) = name (pstore l)))
        in IH by (intros x; by rewrite !Hname).
      destruct (list_find _ todo) as [[k m]|]; simpl;
        destruct IH as [Hres Hstore]; (split; [by rewrite Hres, ?Hname|]);
        intros l; rewrite Hstore, Hlevel; unfold pstore1;
        (destruct (decide (a = l)) as [->|Hal];
         [ rewrite fn_lookup_insert;
           rewrite (decide_True (P := l ∈ l :: _)) by apply list_elem_of_here;
           by case_decide
         | rewrite fn_lookup_insert_ne by done;
           apply decide_ext; rewrite elem_of_cons;
           split; [by right | intros [Hla|Hin]; [congruence | done]] ]).
Qed.

(** C9.  Let [k] be the index of the first stored profile with the name of
    [p], if there is one.  Then [add_profile_if_unique(p)] raises
    [NameError], leaves the list of profiles as it is, and has overwritten
    the excavation level of every profile at an index up to and including
    [k] with the one of [p]; the objects beyond are untouched.  Without such
    a profile it returns [p], has appended [p], and has overwritten the
    excavation level of all previously stored profiles. *)
Theorem add_profile_if_unique_spec (p : loc) (self : @Profiles float Other) :
  match list_find (λ l, name (profile_store self p)
                        = name (profile_store self l)) (profiles self) with
  | Some (k, _) =>
      (add_profile_if_unique p self).2
      = Raise (NameError ("profile with name " +:+ name (profile_store self p)
                          +:+ " already exists."))
      ∧ profiles (add_profile_if_unique p self).1 = profiles self
      ∧ Forall (λ l, excavation_level
                       (profile_store (add_profile_if_unique p self).1 l)
                     = excavation_level (profile_store self p))
               (take (S k) (profiles self))
      ∧ ∀ l, l ∉ take (S k) (profiles self) →
             profile_store (add_profile_if_unique p self).1 l
             = profile_store self l
  | None =>
      (add_profile_if_unique p self).2 = Ok p
      ∧ profiles (add_profile_if_unique p self).1 = profiles self ++ [p]
      ∧ Forall (λ l, excavation_level
                       (profile_store (add_profile_if_unique p self).1 l)
                     = excavation_level (profile_store self p))
               (profiles self)
      ∧ excavation_level (profile_store (add_profile_if_unique p self).1 p)
        = excavation_level (profile_store self p)
  end.
Proof.
  pose proof (add_profile_loop_spec p (profiles self) (profile_store self))
    as Hloop.
  unfold add_profile_if_unique.
  destruct (add_profile_loop p (profiles self) (profile_store self))
    as [pstore' r].
  destruct (list_find _ (profiles self)) as [[k m]|]; simpl in Hloop;
    destruct Hloop as [-> Hstore]; simpl.
  - split_and!; [done..| |].
    + apply Forall_forall. intros l Hl. rewrite Hstore.
      by rewrite decide_True.
    + intros l Hl. rewrite Hstore. by rewrite decide_False.
  - split_and!; [done..| |].
    + apply Forall_forall. intros l Hl. rewrite Hstore.
      by rewrite decide_True.
    + rewrite Hstore. by case_decide.
Qed.

End object_claims.

(** The new profile has the name of the second stored one: the call raises
    after it has overwritten the levels of the first two. *)
Example add_profile_sample :
  let r := DFoundations.add_profile_if_unique 3 SampleObjects.stored_profiles in
  r.2 = Raise (NameError "profile with name b already exists.")
  ∧ DFoundations.profiles r.1 = [0; 1; 2]
  ∧ (λ l, DFoundations.excavation_level (DFoundations.profile_store r.1 l))
      <$> [0; 1; 2] = [9; 9; 3]%Z.
Proof. vm_compute. repeat split. Qed.

Example add_cpt_sample :
  let r := DFoundations.add_cpt 2 SampleObjects.stored_cpts in
  r.2 = 2%Z
  ∧ DFoundations.cpt_collection r.1 = [0; 1; 2]
  ∧ (λ l, DFoundations.timeorder_type (DFoundations.cpt_store r.1 l))
      <$> [0; 1; 2]
    = [DFoundations.CPT_BEFORE_AND_AFTER_INSTALL;
       DFoundations.CPT_BEFORE_AND_AFTER_INSTALL;
       DFoundations.CPT_BEFORE_AND_AFTER_INSTALL].
Proof. vm_compute. repeat split. Qed.

(** A main type given by the caller is overwritten. *)
Example CalculationType_sample :
  DFoundations.main_calculationtype
    (DFoundations.CalculationType_init
       (Some DFoundations.MainCalculationType.PRELIMINARY_DESIGN)
       (Some DFoundations.SubCalculationType.VERIFICATION_COMPLETE))
  = DFoundations.MainCalculationType.VERIFICATION_DESIGN.
Proof. reflexivity. Qed.

(** ** The defaults of [SoilCollection] and [DFoundationsInputStructure] *)

Section soil_claims.
Import DFoundations.
Context {Soil : Type} (soil_name : Soil → string).
Implicit Types (h : @heap Soil) (l : list Soil) (cls : defaults).

Lemma alloc_fresh l h : (alloc l h).1 = next_loc h.
Proof. done. Qed.

Lemma alloc_next l h : next_loc (alloc l h).2 = S (next_loc h).
Proof. done. Qed.

Lemma alloc_lookup_new l h : lists (alloc l h).2 (next_loc h) = l.
Proof. simpl. apply fn_lookup_insert. Qed.

Lemma alloc_lookup_old l h (x : loc) :
  x < next_loc h → lists (alloc l h).2 x = lists h x.
Proof. intros Hx. simpl. apply fn_lookup_insert_ne. lia. Qed.

(** [add_soil_if_unique] leaves the other lists as they are, and appends
    the soil to the list of [self] when its name is new there. *)
Lemma add_soil_other (self : SoilCollection) (s : Soil) h (x : loc) :
  x ≠ soil self → lists (add_soil_if_unique soil_name self s h).1 x = lists h x.
Proof.
  intros Hx. unfold add_soil_if_unique.
  destruct (check_unique soil_name s (lists h (soil self))); simpl; [|done].
  by apply fn_lookup_insert_ne.
Qed.

Lemma add_soil_self (self : SoilCollection) (s : Soil) h :
  lists (add_soil_if_unique soil_name self s h).1 (soil self)
  = match check_unique soil_name s (lists h (soil self)) with
    | Ok _ => lists h (soil self) ++ [s]
    | Raise _ => lists h (soil self)
    end.
Proof.
  unfold add_soil_if_unique.
  destruct (check_unique soil_name s (lists h (soil self))); simpl; [|done].
  apply fn_lookup_insert.
Qed.

Lemma add_soil_result (self : SoilCollection) (s : Soil) h :
  (add_soil_if_unique soil_name self s h).2
  = check_unique soil_name s (lists h (soil self)) ≫= λ _, Ok s.
Proof.
  unfold add_soil_if_unique.
  by destruct (check_unique soil_name s (lists h (soil self))).
Qed.

(** Two lists allocated one after the other with the soils of the list at
    [d], then [add_soil_if_unique] on the first. *)
Lemma two_instances h (d : loc) (s : Soil) :
  d < next_loc h →
  let declared := lists h d in
  let h1 := (alloc (lists h d) h).2 in
  let h2 := (alloc (lists h1 d) h1).2 in
  let a := {| soil := next_loc h |} in
  let b := {| soil := next_loc h1 |} in
  let h3 := (add_soil_if_unique soil_name a s h2).1 in
  soil a ≠ soil b
  ∧ soil a ≠ d
  ∧ soil b ≠ d
  ∧ lists h2 (soil a) = declared
  ∧ lists h2 (soil b) = declared
  ∧ lists h3 (soil b) = declared
  ∧ lists h3 d = declared
  ∧ (add_soil_if_unique soil_name a s h2).2
    = (check_unique soil_name s declared ≫= λ _, Ok s)
  ∧ lists h3 (soil a)
    = match check_unique soil_name s declared with
      | Ok _ => declared ++ [s]
      | Raise _ => declared
      end.
Proof.
  intros Hd declared h1 h2 a b h3.
  assert (next_loc h1 = S (next_loc h)) as Hn1 by done.
  assert (lists h1 d = lists h d) as Hd1 by (by apply alloc_lookup_old).
  assert (lists h2 (next_loc h) = declared) as Ha.
  { unfold h2. rewrite alloc_lookup_old by lia. apply alloc_lookup_new. }
  assert (lists h2 (next_loc h1) = declared) as Hb.
  { unfold h2. by rewrite alloc_lookup_new. }
  assert (lists h2 d = declared) as Hdd.
  { unfold h2. by rewrite alloc_lookup_old by lia. }
  assert (soil a = next_loc h) as Hsa by done.
  assert (soil b = next_loc h1) as Hsb by done.
  clearbody h1 h2 declared.
  split_and!.
  - lia.
  - lia.
  - lia.
  - by rewrite Hsa.
  - by rewrite Hsb.
  - unfold h3. rewrite add_soil_other by lia. by rewrite Hsb.
  - unfold h3. rewrite add_soil_other by lia. done.
  - rewrite add_soil_result. by rewrite Hsa, Ha.
  - unfold h3. rewrite add_soil_self. by rewrite Hsa, Ha.
Qed.

(** C5.  Take the declared defaults, allocated in the heap.  Two
    [SoilCollection] instances constructed one after the other have lists of
    their own, different from each other and from the declared default, both
    holding the default soils.  After [add_soil_if_unique] on the first, the
    list of the second and the declared default are unchanged, and the list
    of the first has the soil appended if its name was new.  The same holds
    of the soil collections of two [DFoundationsInputStructure] instances. *)
Theorem defaults_not_shared cls h (s : Soil) :
  SoilCollection_soil cls < next_loc h →
  soil (DFoundationsInputStructure_soil_collection cls) < next_loc h →
  (let declared := lists h (SoilCollection_soil cls) in
   let a := (SoilCollection_new cls h).1 in
   let h1 := (SoilCollection_new cls h).2 in
   let b := (SoilCollection_new cls h1).1 in
   let h2 := (SoilCollection_new cls h1).2 in
   let h3 := (add_soil_if_unique soil_name a s h2).1 in
   soil a ≠ soil b
   ∧ soil a ≠ SoilCollection_soil cls
   ∧ soil b ≠ SoilCollection_soil cls
   ∧ lists h2 (soil a) = declared
   ∧ lists h2 (soil b) = declared
   ∧ lists h3 (soil b) = declared
   ∧ lists h3 (SoilCollection_soil cls) = declared
   ∧ (add_soil_if_unique soil_name a s h2).2
     = (check_unique soil_name s declared ≫= λ _, Ok s)
   ∧ lists h3 (soil a)
     = match check_unique soil_name s declared with
       | Ok _ => declared ++ [s]
       | Raise _ => declared
       end)
  ∧ (let default := soil (DFoundationsInputStructure_soil_collection cls) in
     let declared := lists h default in
     let a := (DFoundationsInputStructure_new cls h).1 in
     let h1 := (DFoundationsInputStructure_new cls h).2 in
     let b := (DFoundationsInputStructure_new cls h1).1 in
     let h2 := (DFoundationsInputStructure_new cls h1).2 in
     let h3 := (add_soil_if_unique soil_name (soil_collection a) s h2).1 in
     soil (soil_collection a) ≠ soil (soil_collection b)
     ∧ soil (soil_collection a) ≠ default
     ∧ soil (soil_collection b) ≠ default
     ∧ lists h2 (soil (soil_collection a)) = declared
     ∧ lists h2 (soil (soil_collection b)) = declared
     ∧ lists h3 (soil (soil_collection b)) = declared
     ∧ lists h3 default = declared
     ∧ lists h3 (soil (soil_collection a))
       = match check_unique soil_name s declared with
         | Ok _ => declared ++ [s]
         | Raise _ => declared
         end).
Proof.
  intros Hd1 Hd2. split.
  - apply (two_instances h (SoilCollection_soil cls) s Hd1).
  - pose proof (two_instances h
                  (soil (DFoundationsInputStructure_soil_collection cls)) s Hd2)
      as (H1 & H2 & H3 & H4 & H5 & H6 & H7 & _ & H9).
    cbn zeta. split_and!; [exact H1 | exact H2 | exact H3 | exact H4
                          | exact H5 | exact H6 | exact H7 | exact H9].
Qed.

End soil_claims.

Lemma defaults_not_shared_witness :
  let a := (DFoundations.SoilCollection_new SampleSoils.cls SampleSoils.h).1 in
  let h1 := (DFoundations.SoilCollection_new SampleSoils.cls SampleSoils.h).2 in
  let b := (DFoundations.SoilCollection_new SampleSoils.cls h1).1 in
  let h2 := (DFoundations.SoilCollection_new SampleSoils.cls h1).2 in
  let h3 := (DFoundations.add_soil_if_unique id a "Peat" h2).1 in
  DFoundations.lists h3 (DFoundations.soil a) = ["Sand"; "Clay"; "Peat"]
  ∧ DFoundations.lists h3 (DFoundations.soil b) = ["Sand"; "Clay"].
Proof.
  destruct (defaults_not_shared id SampleSoils.cls SampleSoils.h "Peat")
    as [(_ & _ & _ & _ & _ & Hb & _ & _ & Ha) _].
  - vm_compute. lia.
  - vm_compute. lia.
  - split; [exact Ha | exact Hb].
Defined.

(** ** [CalculationOptions.__init__] *)

Section options_facts.
Import DFoundations.

Lemma untoggle_toggle (s : string) :
  untoggle ("is_" +:+ s +:+ "_overruled") = Some s.
Proof.
  unfold untoggle. rewrite strip_prefix_app. simpl.
  apply strip_suffix_app.
Qed.

(** A name whose prefix-free form is [x] is [x] or [p] followed by [x]. *)
Lemma strip_prefix_default (p field x : string) :
  default field (Str.strip_prefix p field) = x →
  field = x ∨ field = p +:+ x.
Proof.
  unfold Str.strip_prefix.
  destruct (Str.startswith p field) eqn:Hp; simpl.
  - intros <-. right. by apply startswith_inv.
  - by left.
Qed.

(** For the fields that have a declared toggle, [find_toggle] gives the
    toggle of the specification: these names hold [factor_] as a prefix
    only. *)
Lemma find_toggle_declared (field : string) :
  toggle_of field ∈ model_fields → find_toggle field = toggle_of field.
Proof.
  intros Hin.
  assert (default field (Str.strip_prefix "factor_" field)
            ∈ omap untoggle model_fields) as Hx.
  { apply list_elem_of_omap. exists (toggle_of field).
    split; [done | apply untoggle_toggle]. }
  clear Hin.
  let l := eval vm_compute in (omap untoggle model_fields) in
  change (omap untoggle model_fields) with l in Hx.
  repeat (apply elem_of_cons in Hx as [Hx|Hx];
          [apply strip_prefix_default in Hx as [-> | ->];
           vm_compute; reflexivity|]).
  by apply elem_of_nil in Hx.
Qed.

(** Every field named as a toggle is a [Bool]. *)
Lemma toggles_are_flags (info : field_info) :
  info ∈ CalculationOptions_fields →
  is_Some (untoggle (field_name info)) → field_type info = TBool.
Proof.
  intros Hin Htoggle.
  assert (Forall (λ info, match untoggle (field_name info) with
                          | Some _ => field_type info = TBool
                          | None => True
                          end)
                 CalculationOptions_fields) as Hall.
  { unfold CalculationOptions_fields. repeat constructor. }
  rewrite Forall_forall in Hall. specialize (Hall info Hin).
  destruct Htoggle as [x Hx]. by rewrite Hx in Hall.
Qed.

Section pydantic.
Variable validate : field_info → value → result value.
Variable extra : list (string * value) → result (list (string * value)).

(** A declared field of the instance holds what validation makes of the
    keyword argument of its name, or of its default. *)
Lemma validate_fields_get (fields : list field_info)
    (kwargs obj : list (string * value)) (k : string) :
  validate_fields validate fields kwargs = Ok obj →
  k ∈ field_name <$> fields →
  ∃ info v,
    info ∈ fields ∧ field_name info = k
    ∧ validate info (default (field_default info) (PyDict.get k kwargs)) = Ok v
    ∧ PyDict.get k obj = Some v.
Proof.
  revert obj. induction fields as [|info fields IH]; intros obj; csimpl.
  - intros _ Hin. by apply elem_of_nil in Hin.
  - intros Hobj Hin.
    apply bind_Ok in Hobj as (v & Hv & Hobj).
    apply bind_Ok in Hobj as (obj' & Hobj' & [= <-]).
    destruct (decide (field_name info = k)) as [<-|Hne].
    + exists info, v. simpl. rewrite decide_True by done.
      split_and!; [apply list_elem_of_here|done..].
    + apply elem_of_cons in Hin as [->|Hin]; [done|].
      destruct (IH _ Hobj' Hin) as (info' & v' & ? & ? & ? & ?).
      exists info', v'. simpl. rewrite decide_False by done.
      split_and!; [by apply list_elem_of_further|done..].
Qed.

(** The toggles that the loop collects are all [TRUE], and every keyword
    argument that is not [None] and has a declared toggle contributes
    it. *)
Lemma record_toggle_values toggles item :
  (∀ kv, kv ∈ toggles → kv.2 = VBool TRUE) →
  ∀ kv, kv ∈ record_toggle toggles item → kv.2 = VBool TRUE.
Proof.
  intros Hall kv. destruct item as [field value]. simpl.
  repeat case_decide; auto.
  intros [->|Hin]%dict_set_elem; auto.
Qed.

Lemma record_toggle_keys toggles item (k : string) :
  k ∈ toggles.*1 → k ∈ (record_toggle toggles item).*1.
Proof.
  intros Hin. destruct item as [field value]. simpl.
  repeat case_decide; auto using dict_set_keys_mono.
Qed.

Lemma collect_toggles_values (kwargs : list (string * value)) kv :
  kv ∈ collect_toggles kwargs → kv.2 = VBool TRUE.
Proof.
  unfold collect_toggles.
  assert (∀ toggles, (∀ kv, kv ∈ toggles → kv.2 = VBool TRUE) →
            ∀ kv, kv ∈ foldl record_toggle toggles kwargs →
                  kv.2 = VBool TRUE) as Hgen.
  { induction kwargs as [|item kwargs IH]; intros toggles Hall; simpl.
    - done.
    - apply IH. by apply record_toggle_values. }
  apply Hgen. intros ? Hin. by apply elem_of_nil in Hin.
Qed.

Lemma foldl_record_toggle_mono (kwargs toggles : list (string * value))
    (k : string) :
  k ∈ toggles.*1 → k ∈ (foldl record_toggle toggles kwargs).*1.
Proof.
  revert toggles. induction kwargs as [|item kwargs IH]; intros toggles Hk.
  - done.
  - simpl. apply IH. by apply record_toggle_keys.
Qed.

Lemma foldl_record_toggle_keys (kwargs toggles : list (string * value))
    field value :
  (field, value) ∈ kwargs → value ≠ VNone →
  find_toggle field ∈ model_fields →
  find_toggle field ∈ (foldl record_toggle toggles kwargs).*1.
Proof.
  intros Hin Hvalue Hfield. revert toggles.
  induction kwargs as [|item kwargs IH]; intros toggles.
  - by apply elem_of_nil in Hin.
  - simpl. apply elem_of_cons in Hin as [<-|Hin]; [|by apply IH].
    apply foldl_record_toggle_mono. simpl.
    rewrite decide_False by done. rewrite decide_True by done.
    apply dict_set_key.
Qed.

Lemma collect_toggles_keys (kwargs : list (string * value)) field value :
  (field, value) ∈ kwargs → value ≠ VNone →
  find_toggle field ∈ model_fields →
  find_toggle field ∈ (collect_toggles kwargs).*1.
Proof. apply foldl_record_toggle_keys. Qed.

(** C4.  Suppose validation keeps a [Bool] given for a [Bool] field.  For
    every keyword argument [field] passed with a value other than [None]:
    if the name made of [is_], of [field] without its prefix [factor_], and
    of [_overruled] is a declared field of [CalculationOptions], then that
    field of the constructed object is [Bool.TRUE], whatever the caller
    passed for it. *)
Theorem toggle_forced (kwargs obj : list (string * value)) field value :
  (∀ info b, field_type info = TBool → validate info (VBool b) = Ok (VBool b)) →
  (field, value) ∈ kwargs →
  value ≠ VNone →
  toggle_of field ∈ model_fields →
  CalculationOptions_init validate extra kwargs = Ok obj →
  PyDict.get (toggle_of field) obj = Some (VBool TRUE).
Proof.
  intros Hvalidate Hin Hvalue Hfield Hobj.
  pose proof (find_toggle_declared field Hfield) as Hsame.
  unfold CalculationOptions_init, BaseModel_init in Hobj.
  apply bind_Ok in Hobj as (declared & Hdeclared & Hobj).
  apply bind_Ok in Hobj as (others & _ & [= <-]).
  destruct (validate_fields_get _ _ _ (toggle_of field) Hdeclared Hfield)
    as (info & v & Hinfo & Hname & Hv & Hget).
  apply dict_get_app_l. rewrite Hget. f_equal.
  assert (PyDict.get (toggle_of field)
            (PyDict.update kwargs (collect_toggles kwargs))
          = Some (VBool TRUE)) as Hkw.
  { apply dict_get_update_const.
    - apply collect_toggles_values.
    - rewrite <- Hsame.
      apply (collect_toggles_keys kwargs field value); [done|done|].
      by rewrite Hsame. }
  rewrite Hkw in Hv. simpl in Hv.
  rewrite Hvalidate in Hv; [congruence|].
  apply toggles_are_flags; [done|].
  rewrite Hname. unfold toggle_of. rewrite untoggle_toggle. eauto.
Qed.

End pydantic.
End options_facts.

Lemma toggle_forced_witness :
  PyDict.get "is_xi3_overruled" SampleOptions.constructed
  = Some (DFoundations.VBool DFoundations.TRUE).
Proof.
  apply (toggle_forced DFoundations.validate_strict DFoundations.extra_forbid
           SampleOptions.kwargs SampleOptions.constructed
           "factor_xi3" (DFoundations.VFloat 1.5)).
  - intros info b Htype. unfold DFoundations.validate_strict.
    by rewrite Htype.
  - apply list_elem_of_here.
  - discriminate.
  - vm_compute. repeat constructor.
  - vm_compute. reflexivity.
Defined.

(** ** [DStabilityInputZipSerializer.write] *)

Section zip_claims.
Import DStability Layout.
Context {Data : Type} `{!Iterable Data} (model_dump_json : Data → string).
Context {Env Meta : Type} (ZipInfo_new : Env → string → ZipInfo Meta).
Implicit Types (env : Env) (zip : list (member Meta)).

Lemma normalize_app zip1 zip2 :
  normalize (zip1 ++ zip2) = normalize zip1 ++ normalize zip2.
Proof. unfold normalize. apply fmap_app. Qed.

(** After the last loop every member has [create_system] 0. *)
Lemma normalize_create_system zip :
  Forall (λ m, create_system (zinfo m) = 0%Z) (normalize zip).
Proof.
  unfold normalize. apply Forall_fmap, Forall_forall. by intros m _.
Qed.

(** With a folder name that is not empty the inner loop returns, and has
    written every file of the folder under its member name.  With the
    empty name it raises at the first file. *)
Lemma str_last_is_Some (s : string) : s ≠ "" → is_Some (Str.last s).
Proof.
  induction s as [|a [|b s] IH]; [done|by eexists|]. intros _.
  apply IH. done.
Qed.

Local Abbreviation new_member env :=
  (λ nt : string * string,
     {| zinfo := ZipInfo_new env nt.1; written := Str.encode_utf8 nt.2 |}).

Lemma zip_write_files_named env folder data zip :
  folder ≠ "" →
  zip_write_files ZipInfo_new env folder data zip
  = (zip ++ (new_member env
               <$> ((λ f, (member_name folder f.1, f.2)) <$> data)),
     Ok ()).
Proof.
  intros Hfolder. destruct (str_last_is_Some folder Hfolder) as [c Hc].
  revert zip. induction data as [|[ffilename fdata] data IH]; intros zip;
    csimpl.
  - by rewrite app_nil_r.
  - rewrite Hc, IH. unfold zip_write_member, member_name. rewrite Hc.
    rewrite <- app_assoc. simpl.
    by destruct (decide (c = "/"%char)) as [->|Hne];
      [rewrite decide_True by done | rewrite decide_False by congruence].
Qed.

Lemma zip_write_files_unnamed env f data zip :
  zip_write_files ZipInfo_new env "" (f :: data) zip = (zip, Raise IndexError).
Proof. by destruct f. Qed.

(** The loop over the serialized structure: when it returns it has
    written the members of the structure; when it raises, it raises
    [IndexError] and has written the first of them. *)
Lemma zip_write_entries_members env (sd : list (string * entry)) zip :
  match zip_write_entries ZipInfo_new env sd zip with
  | (zip', Ok _) => zip' = zip ++ (new_member env <$> members sd)
  | (zip', Raise e) =>
      e = IndexError
      ∧ ∃ pre, pre `prefix_of` members sd
               ∧ zip' = zip ++ (new_member env <$> pre)
  end.
Proof.
  revert zip. induction sd as [|[filename [data|data]] sd IH]; intros zip;
    unfold members; csimpl; try fold (members sd).
  - by rewrite app_nil_r.
  - specialize (IH (zip_write_member ZipInfo_new env filename
                      (Str.encode_utf8 data) zip)).
    unfold zip_write_member in *.
    destruct (zip_write_entries _ _ _ _) as [zip' [[]|e]].
    + by rewrite IH, <- app_assoc.
    + destruct IH as (-> & pre & Hpre & ->). split; [done|].
      exists ((filename, data) :: pre).
      split; [by apply prefix_cons | by rewrite <- app_assoc].
  - destruct (decide (filename = "")) as [->|Hname].
    + destruct data as [|f data].
      * simpl. apply IH.
      * rewrite zip_write_files_unnamed. split; [done|].
        exists []. split; [apply prefix_nil | by rewrite app_nil_r].
    + rewrite zip_write_files_named by done.
      specialize (IH (zip ++ (new_member env
                       <$> ((λ f, (member_name filename f.1, f.2))
                              <$> data)))).
      destruct (zip_write_entries _ _ _ _) as [zip' [[]|e]].
      * by rewrite IH, fmap_app, <- app_assoc.
      * destruct IH as (-> & pre & Hpre & ->). split; [done|].
        exists (((λ f, (member_name filename f.1, f.2)) <$> data) ++ pre).
        split; [by apply prefix_app | by rewrite fmap_app, <- app_assoc].
Qed.

(** Whether the loop returns does not depend on the environment, nor on
    the archive it starts from. *)
Lemma zip_write_entries_outcome env1 env2 (sd : list (string * entry))
    zip1 zip2 :
  (zip_write_entries ZipInfo_new env1 sd zip1).2
  = (zip_write_entries ZipInfo_new env2 sd zip2).2.
Proof.
  revert zip1 zip2.
  induction sd as [|[filename [data|data]] sd IH]; intros zip1 zip2; simpl.
  - done.
  - apply IH.
  - destruct (decide (filename = "")) as [->|Hname].
    + destruct data as [|f data]; [apply IH|].
      by rewrite !zip_write_files_unnamed.
    + rewrite !zip_write_files_named by done. apply IH.
Qed.

Lemma zip_write_entries_total env (sd : list (string * entry)) zip :
  Forall (λ kv, match kv.2 with Folder _ => kv.1 ≠ "" | File _ => True end)
         sd →
  (zip_write_entries ZipInfo_new env sd zip).2 = Ok ().
Proof.
  intros Hall. revert zip.
  induction Hall as [|[filename [data|data]] sd Hname _ IH];
    intros zip; simpl.
  - done.
  - apply IH.
  - rewrite zip_write_files_named by done. apply IH.
Qed.

(** [write], by what [serialize] and the loop do. *)
Lemma zip_write_spec {F : Type} env (ds : @DStabilityStructure Data)
    (filepath : F) :
  match serialize model_dump_json ds with
  | Ok sd =>
      match (zip_write_entries ZipInfo_new env sd []).2 with
      | Ok _ =>
          zip_write model_dump_json ZipInfo_new env ds filepath
          = (normalize (new_member env <$> members sd), Ok filepath)
      | Raise e =>
          e = IndexError
          ∧ ∃ pre, pre `prefix_of` members sd
                   ∧ zip_write model_dump_json ZipInfo_new env ds filepath
                     = (new_member env <$> pre, Raise e)
      end
  | Raise e =>
      zip_write model_dump_json ZipInfo_new env ds filepath = ([], Raise e)
  end.
Proof.
  unfold zip_write.
  destruct (serialize model_dump_json ds) as [sd|e]; [|done].
  pose proof (zip_write_entries_members env sd []) as Hmembers.
  destruct (zip_write_entries ZipInfo_new env sd []) as [zip [[]|e]]; simpl.
  - by rewrite Hmembers.
  - destruct Hmembers as (-> & pre & Hpre & ->). eauto.
Qed.

Lemma zip_write_total {F : Type} env (ds : @DStabilityStructure Data)
    (filepath : F) :
  well_typed ds → named_groups ds →
  ∃ zip, zip_write model_dump_json ZipInfo_new env ds filepath
         = (zip, Ok filepath).
Proof.
  intros Hwt Hgroups.
  pose proof (zip_write_spec env ds filepath) as Hspec.
  destruct (serialize_total model_dump_json ds Hwt) as [sd Hsd].
  rewrite Hsd in Hspec. rewrite zip_write_entries_total in Hspec; [eauto|].
  apply (serialize_fields_Forall model_dump_json _ ds
           (get_filtered_type_hints ds) [] sd); [done| |done].
  intros [field [X|X]] kv Hin Hkv.
  - apply serialize_field_list in Hkv as (elems & -> & _). simpl.
    by apply (Hgroups field).
  - by apply serialize_field_plain in Hkv as (data & _ & ->).
Qed.

(** Members made in two environments for the same names are the same
    after the last loop, when their [ZipInfo] differ in [create_system] at
    most. *)
Lemma normalize_new_member env1 env2 (P : string → Prop)
    (nts : list (string * string)) :
  (∀ name, P name →
     set_create_system 0 (ZipInfo_new env1 name)
     = set_create_system 0 (ZipInfo_new env2 name)) →
  Forall P nts.*1 →
  normalize (new_member env1 <$> nts) = normalize (new_member env2 <$> nts).
Proof.
  intros Henv Hall. unfold normalize. rewrite <- !list_fmap_compose.
  apply list_fmap_ext. intros i nt Hi. simpl. f_equal. apply Henv.
  rewrite Forall_forall in Hall. apply Hall.
  apply list_elem_of_fmap. exists nt. split; [done|].
  by apply list_elem_of_lookup_2 in Hi.
Qed.

(** C2.  Take two producing environments in which the [ZipInfo] of a new
    member differs in [create_system] at most, for every name without a
    backslash (on Windows [ZipInfo] turns backslashes into slashes), and a
    document whose member names have no backslash.  Then [write] returns
    in both environments or raises the same in both.  When it returns, it
    returns the path it was given, every member of the archive has
    [create_system] equal to 0, and the archive is the same in both
    environments, member by member in metadata and in content and so in
    its bytes.  It does return for a document whose attributes have the
    annotated shapes and whose folders have names, as the documents of the
    D-Stability schema have.  (A [write] that raises leaves the members
    written so far as [ZipInfo] made them.) *)
Theorem zip_write_reproducible {F : Type}
    (ZipFile_close : list (member Meta) → list Byte.byte)
    (ds : @DStabilityStructure Data) (filepath : F) env1 env2 :
  (∀ name, Str.contains Str.backslash name = false →
     set_create_system 0 (ZipInfo_new env1 name)
     = set_create_system 0 (ZipInfo_new env2 name)) →
  (∀ sd, serialize model_dump_json ds = Ok sd →
     Forall (λ name, Str.contains Str.backslash name = false)
       (member_names sd)) →
  (zip_write model_dump_json ZipInfo_new env1 ds filepath).2
  = (zip_write model_dump_json ZipInfo_new env2 ds filepath).2
  ∧ match zip_write model_dump_json ZipInfo_new env1 ds filepath with
    | (zip, Ok returned) =>
        returned = filepath
        ∧ Forall (λ m, create_system (zinfo m) = 0%Z) zip
        ∧ zip_write model_dump_json ZipInfo_new env2 ds filepath
          = (zip, Ok filepath)
        ∧ archive_bytes model_dump_json ZipInfo_new ZipFile_close
            env1 ds filepath
          = archive_bytes model_dump_json ZipInfo_new ZipFile_close
              env2 ds filepath
    | (_, Raise _) => True
    end
  ∧ (well_typed ds → named_groups ds →
     ∃ zip, zip_write model_dump_json ZipInfo_new env1 ds filepath
            = (zip, Ok filepath)).
Proof.
  intros Henv Hnames. split_and!; [| |by apply zip_write_total].
  { unfold zip_write.
    destruct (serialize model_dump_json ds) as [sd|e]; [|done].
    pose proof (zip_write_entries_outcome env1 env2 sd [] []) as Hsame.
    destruct (zip_write_entries ZipInfo_new env1 sd []) as [z1 [[]|e1]],
             (zip_write_entries ZipInfo_new env2 sd []) as [z2 [[]|e2]];
      simpl in *; congruence. }
  pose proof (zip_write_spec env1 ds filepath) as H1.
  pose proof (zip_write_spec env2 ds filepath) as H2.
  unfold archive_bytes.
  destruct (serialize model_dump_json ds) as [sd|e] eqn:Hsd.
  - rewrite (zip_write_entries_outcome env2 env1 sd [] []) in H2.
    destruct (zip_write_entries ZipInfo_new env1 sd []).2 as [[]|e].
    + assert (normalize (new_member env1 <$> members sd)
              = normalize (new_member env2 <$> members sd)) as Hsame
        by (apply (normalize_new_member env1 env2 _ _ Henv), Hnames, eq_refl).
      rewrite H1, H2, Hsame. simpl.
      split_and!; [done|apply normalize_create_system|done|done].
    + by destruct H1 as (_ & pre1 & _ & ->).
  - by rewrite H1.
Qed.

End zip_claims.

Lemma zip_write_reproducible_witness :
  DStability.zip_write id SampleZip.ZipInfo_new SampleZip.win32 Sample.ds
    "sample.stix"
  = (SampleZip.archive, Ok "sample.stix")
  ∧ Forall (λ m, DStability.create_system (DStability.zinfo m) = 0%Z)
      SampleZip.archive.
Proof.
  assert (DStability.zip_write id SampleZip.ZipInfo_new SampleZip.linux
            Sample.ds "sample.stix"
          = (SampleZip.archive, Ok "sample.stix")) as Hlinux
    by (vm_compute; reflexivity).
  destruct (zip_write_reproducible id SampleZip.ZipInfo_new
              (λ zip, zip ≫= DStability.written) Sample.ds
              "sample.stix" SampleZip.linux SampleZip.win32)
    as (_ & Hreturned & _).
  - apply sample_zipinfo_same.
  - intros sd Hsd. vm_compute in Hsd. injection Hsd as <-.
    repeat constructor.
  - rewrite Hlinux in Hreturned.
    destruct Hreturned as (_ & Hzero & Hwin32 & _). done.
Defined.

(** The archive of the sample document: the members in the order of the
    serialized structure, a folder name and a file name joined by one
    slash. *)
Example zip_sample :
  (λ m, (DStability.zi_filename (DStability.zinfo m),
         DStability.create_system (DStability.zinfo m)))
    <$> SampleZip.archive
  = [("waternets/waternet.json", 0%Z);
     ("waternets/waternet_1.json", 0%Z);
     ("waternets/waternet_2.json", 0%Z);
     ("soils.json", 0%Z);
     ("results/upliftvan/upliftvanresult.json", 0%Z)].
Proof. vm_compute. reflexivity. Qed.

(** A [write] that raises: the group of the list field has no name, so
    [folder[-1]] raises [IndexError] at its first element.  The archive is
    finalized with the file written before, and the loop that sets
    [create_system] has not run. *)
Example zip_raise_sample :
  (λ r, ((λ m, (DStability.zi_filename (DStability.zinfo m),
                DStability.create_system (DStability.zinfo m))) <$> r.1,
         r.2))
    (DStability.zip_write id SampleZip.ZipInfo_new SampleZip.linux
       SampleZip.ds_unnamed "sample.stix")
  = ([("soils.json", 3%Z)], Raise IndexError).
Proof. vm_compute. reflexivity. Qed.

(** ** [DStabilityInputSerializer.write] *)

Section write_facts.
Import DStability.
Context {Data : Type} `{!Iterable Data} (model_dump_json : Data → string).
Context {path : Type} `{EqDecision path}.
Context (truediv : path → string → path) (parents : path → list path).
Implicit Types (fs : path → option node) (p : path).

Local Abbreviation touched := (touched (path := path)).
Local Abbreviation mkdir := (mkdir parents).
Local Abbreviation write_bytes := (write_bytes parents).
Local Abbreviation write_files := (write_files truediv parents).
Local Abbreviation write_entries := (write_entries truediv parents).
Local Abbreviation file_targets := (file_targets truediv).
Local Abbreviation folder_targets := (folder_targets truediv parents).

Lemma touched_mono (dirs dirs' files files' : list path)
    (texts texts' : list string) before after p :
  dirs ⊆ dirs' → files ⊆ files' → texts ⊆ texts' →
  touched dirs files texts before after p →
  touched dirs' files' texts' before after p.
Proof.
  intros Hd Hf Ht [Hsame|[(Hb & Ha & Hin)|(Hb & Hin & text & Htext & Ha)]].
  - by left.
  - right. left. auto.
  - right. right. split_and!; [done|auto|]. exists text. auto.
Qed.

Lemma touched_trans (dirs files : list path) (texts : list string)
    (a b c : option node) p :
  touched dirs files texts a b p → touched dirs files texts b c p →
  touched dirs files texts a c p.
Proof.
  intros [->|[(Ha & Hb & Hin)|(Ha & Hin & text & Htext & Hb)]] Hbc; [done| |].
  - destruct Hbc as [->|[(Hb' & _)|(Hb' & _)]].
    + right. left. auto.
    + congruence.
    + congruence.
  - destruct Hbc as [->|[(Hb' & _)|(_ & _ & text' & Htext' & Hc)]].
    + right. right. split_and!; [done..|]. by exists text.
    + congruence.
    + right. right. split_and!; [done..|]. by exists text'.
Qed.

(** [mkdir] makes missing directories of the chain and nothing else. *)
Lemma mkdir_chain_touched (chain : list path) fs p :
  touched chain [] [] (fs p) ((mkdir_chain chain fs).1 p) p.
Proof.
  revert fs. induction chain as [|a chain IH]; intros fs; simpl.
  - by left.
  - destruct (fs a) as [[|content]|] eqn:Ha.
    + eapply touched_mono, IH; [|done..]. by apply list_subseteq_cons.
    + by left.
    + specialize (IH (<[a := Some Dir]> fs)).
      destruct (decide (a = p)) as [->|Hne].
      * rewrite fn_lookup_insert in IH.
        destruct IH as [Hsame|[(Hb & _)|(Hb & _)]]; [|done..].
        right. left. split_and!; [done..|apply list_elem_of_here].
      * rewrite fn_lookup_insert_ne in IH by done.
        eapply touched_mono, IH; [|done..]. by apply list_subseteq_cons.
Qed.

(** Writing a file changes that file only, and never a directory. *)
Lemma write_bytes_touched (fn : path) (text : string) fs p :
  touched [] [fn] [text] (fs p)
    ((write_bytes fn (Str.encode_utf8 text) fs).1 p) p.
Proof.
  assert (fs fn ≠ Some Dir →
          touched [] [fn] [text] (fs p)
            ((<[fn := Some (Regular (Str.encode_utf8 text))]> fs) p) p)
    as Hwrite.
  { intros Hfn. destruct (decide (fn = p)) as [->|Hne].
    - rewrite fn_lookup_insert. right. right.
      split_and!; [done|apply list_elem_of_here|].
      exists text. split; [apply list_elem_of_here | done].
    - rewrite fn_lookup_insert_ne by done. by left. }
  unfold DStability.write_bytes.
  destruct (list.last (parents fn)) as [d|].
  - destruct (fs d) as [[|?]|]; simpl; [|by left..].
    destruct (fs fn) as [[|?]|] eqn:Hfn; simpl; [by left|..];
      apply Hwrite; congruence.
  - destruct (fs fn) as [[|?]|] eqn:Hfn; simpl; [by left|..];
      apply Hwrite; congruence.
Qed.

Lemma write_files_touched (folder : path) (data : list (string * string)) fs p :
  touched [] (truediv folder <$> data.*1) data.*2 (fs p)
    ((write_files folder data fs).1 p) p.
Proof.
  revert fs. induction data as [|[ffilename fdata] data IH]; intros fs; csimpl.
  - by left.
  - pose proof (write_bytes_touched (truediv folder ffilename) fdata fs p)
      as Hstep.
    destruct (write_bytes (truediv folder ffilename)
                (Str.encode_utf8 fdata) fs) as [fs1 [[]|e]]; simpl in *.
    + eapply touched_trans.
      * eapply touched_mono, Hstep; [done|..];
          intros x Hx%list_elem_of_singleton; subst; apply list_elem_of_here.
      * eapply touched_mono, IH; [done|..]; by apply list_subseteq_cons.
    + eapply touched_mono, Hstep; [done|..];
        intros x Hx%list_elem_of_singleton; subst; apply list_elem_of_here.
Qed.

Lemma write_entries_touched (filepath : path)
    (sd : list (string * entry)) fs p :
  touched (folder_targets filepath sd) (file_targets filepath sd) (texts sd)
    (fs p) ((write_entries filepath sd fs).1 p) p.
Proof.
  revert fs.
  induction sd as [|[filename [data|data]] sd IH]; intros fs;
    unfold DStability.folder_targets, DStability.file_targets, texts;
    csimpl.
  - by left.
  - fold (folder_targets filepath sd) (file_targets filepath sd) (texts sd).
    pose proof (write_bytes_touched (truediv filepath filename) data fs p)
      as Hstep.
    destruct (write_bytes (truediv filepath filename)
                (Str.encode_utf8 data) fs) as [fs1 [[]|e]]; simpl in *.
    + eapply touched_trans.
      * eapply touched_mono, Hstep;
          [apply list_subseteq_nil | apply list_subseteq_skip, list_subseteq_nil..].
      * eapply touched_mono, IH; [done|by apply list_subseteq_cons..].
    + eapply touched_mono, Hstep;
        [apply list_subseteq_nil | apply list_subseteq_skip, list_subseteq_nil..].
  - fold (folder_targets filepath sd) (file_targets filepath sd) (texts sd).
    set (folder := truediv filepath filename).
    pose proof (mkdir_chain_touched (parents folder ++ [folder]) fs p)
      as Hmk.
    unfold DStability.mkdir.
    destruct (mkdir_chain (parents folder ++ [folder]) fs)
      as [fs1 [[]|e]]; simpl in *.
    + pose proof (write_files_touched folder data fs1 p) as Hfiles.
      rewrite <- list_fmap_compose in Hfiles.
      destruct (write_files folder data fs1) as [fs2 [[]|e]]; simpl in *.
      * eapply touched_trans; [eapply touched_trans|].
        -- eapply touched_mono, Hmk;
             [by apply list_subseteq_app_l
             |apply list_subseteq_nil|apply list_subseteq_nil].
        -- eapply touched_mono, Hfiles;
             [apply list_subseteq_nil|by apply list_subseteq_app_l..].
        -- eapply touched_mono, IH; by apply list_subseteq_app_r.
      * eapply touched_trans.
        -- eapply touched_mono, Hmk;
             [by apply list_subseteq_app_l
             |apply list_subseteq_nil|apply list_subseteq_nil].
        -- eapply touched_mono, Hfiles;
             [apply list_subseteq_nil|by apply list_subseteq_app_l..].
    + eapply touched_mono, Hmk;
        [by apply list_subseteq_app_l
        |apply list_subseteq_nil|apply list_subseteq_nil].
Qed.

(** Two runs from file systems of the same shape. *)
Lemma in_step_refl fs1 fs2 : same_shape fs1 fs2 → in_step fs1 fs2 fs1 fs2.
Proof. intros Hshape. split; [done|]. intros p. by left. Qed.

Lemma in_step_trans fs1 fs2 fs1' fs2' fs1'' fs2'' :
  in_step fs1 fs2 fs1' fs2' → in_step fs1' fs2' fs1'' fs2'' →
  in_step fs1 fs2 fs1'' fs2''.
Proof.
  intros [_ H1] [Hshape H2]. split; [done|]. intros p.
  destruct (H2 p) as [[-> ->]|Heq]; [apply H1 | by right].
Qed.

Lemma in_step_insert fs1 fs2 (q : path) (n : option node) :
  same_shape fs1 fs2 → in_step fs1 fs2 (<[q := n]> fs1) (<[q := n]> fs2).
Proof.
  intros Hshape. split.
  - intros p. destruct (decide (q = p)) as [->|Hne].
    + by rewrite !fn_lookup_insert.
    + rewrite !fn_lookup_insert_ne by done. apply Hshape.
  - intros p. destruct (decide (q = p)) as [->|Hne].
    + right. by rewrite !fn_lookup_insert.
    + left. by rewrite !fn_lookup_insert_ne.
Qed.

Lemma same_shape_Dir fs1 fs2 p :
  same_shape fs1 fs2 → fs1 p = Some Dir ↔ fs2 p = Some Dir.
Proof.
  intros Hshape. specialize (Hshape p).
  destruct (fs1 p) as [[|?]|], (fs2 p) as [[|?]|]; naive_solver.
Qed.

Lemma mkdir_chain_in_step (chain : list path) fs1 fs2 :
  same_shape fs1 fs2 →
  (mkdir_chain chain fs1).2 = (mkdir_chain chain fs2).2
  ∧ in_step fs1 fs2 (mkdir_chain chain fs1).1 (mkdir_chain chain fs2).1.
Proof.
  revert fs1 fs2. induction chain as [|a chain IH]; intros fs1 fs2 Hshape.
  - split; [done | by apply in_step_refl].
  - simpl. pose proof (Hshape a) as Ha.
    destruct (fs1 a) as [[|c1]|], (fs2 a) as [[|c2]|]; try done; simpl.
    + by apply IH.
    + split; [done | by apply in_step_refl].
    + destruct (IH (<[a := Some Dir]> fs1) (<[a := Some Dir]> fs2))
        as [Hres Hstep]; [by apply in_step_insert|].
      split; [done|].
      eapply in_step_trans; [by apply in_step_insert | done].
Qed.

Lemma write_bytes_in_step (fn : path) (data : list Byte.byte) fs1 fs2 :
  same_shape fs1 fs2 →
  (write_bytes fn data fs1).2 = (write_bytes fn data fs2).2
  ∧ in_step fs1 fs2 (write_bytes fn data fs1).1 (write_bytes fn data fs2).1.
Proof.
  intros Hshape. unfold DStability.write_bytes.
  pose proof (Hshape fn) as Hfn.
  destruct (list.last (parents fn)) as [d|].
  - pose proof (Hshape d) as Hd.
    destruct (fs1 d) as [[|?]|], (fs2 d) as [[|?]|]; try done; simpl;
      [|split; [done | by apply in_step_refl]..].
    destruct (fs1 fn) as [[|?]|], (fs2 fn) as [[|?]|]; try done; simpl;
      (split; [done|]); by (apply in_step_refl || apply in_step_insert).
  - destruct (fs1 fn) as [[|?]|], (fs2 fn) as [[|?]|]; try done; simpl;
      (split; [done|]); by (apply in_step_refl || apply in_step_insert).
Qed.

Lemma write_files_in_step (folder : path) (data : list (string * string))
    fs1 fs2 :
  same_shape fs1 fs2 →
  (write_files folder data fs1).2 = (write_files folder data fs2).2
  ∧ in_step fs1 fs2 (write_files folder data fs1).1
      (write_files folder data fs2).1.
Proof.
  revert fs1 fs2.
  induction data as [|[ffilename fdata] data IH]; intros fs1 fs2 Hshape; simpl.
  - split; [done | by apply in_step_refl].
  - destruct (write_bytes_in_step (truediv folder ffilename)
                (Str.encode_utf8 fdata) fs1 fs2 Hshape) as [Hres Hstep].
    destruct (write_bytes (truediv folder ffilename)
                (Str.encode_utf8 fdata) fs1) as [fs1' [[]|e1]],
             (write_bytes (truediv folder ffilename)
                (Str.encode_utf8 fdata) fs2) as [fs2' [[]|e2]];
      simpl in *; try done.
    destruct (IH fs1' fs2' (proj1 Hstep)) as [Hres' Hstep'].
    split; [done | by eapply in_step_trans].
Qed.

Lemma write_entries_in_step (filepath : path) (sd : list (string * entry))
    fs1 fs2 :
  same_shape fs1 fs2 →
  (write_entries filepath sd fs1).2 = (write_entries filepath sd fs2).2
  ∧ in_step fs1 fs2 (write_entries filepath sd fs1).1
      (write_entries filepath sd fs2).1.
Proof.
  revert fs1 fs2.
  induction sd as [|[filename [data|data]] sd IH]; intros fs1 fs2 Hshape; simpl.
  - split; [done | by apply in_step_refl].
  - destruct (write_bytes_in_step (truediv filepath filename)
                (Str.encode_utf8 data) fs1 fs2 Hshape) as [Hres Hstep].
    destruct (write_bytes (truediv filepath filename)
                (Str.encode_utf8 data) fs1) as [fs1' [[]|e1]],
             (write_bytes (truediv filepath filename)
                (Str.encode_utf8 data) fs2) as [fs2' [[]|e2]];
      simpl in *; try done.
    destruct (IH fs1' fs2' (proj1 Hstep)) as [Hres' Hstep'].
    split; [done | by eapply in_step_trans].
  - set (folder := truediv filepath filename). unfold DStability.mkdir.
    destruct (mkdir_chain_in_step (parents folder ++ [folder]) fs1 fs2 Hshape)
      as [Hres Hstep].
    destruct (mkdir_chain (parents folder ++ [folder]) fs1) as [fs1' [[]|e1]],
             (mkdir_chain (parents folder ++ [folder]) fs2) as [fs2' [[]|e2]];
      simpl in *; try done.
    destruct (write_files_in_step folder data fs1' fs2' (proj1 Hstep))
      as [Hres' Hstep'].
    destruct (write_files folder data fs1') as [fs1'' [[]|e1]],
             (write_files folder data fs2') as [fs2'' [[]|e2]];
      simpl in *; try done.
    + destruct (IH fs1'' fs2'' (proj1 Hstep')) as [Hres'' Hstep''].
      split; [done|].
      eapply in_step_trans; [|done]. by eapply in_step_trans.
    + split; [done | by eapply in_step_trans].
Qed.

(** C6.  [write] returns the path it was given, unless it raises.  At every
    path it did nothing, or made a missing directory that is a folder named
    by a key of the serialized structure (or an ancestor of one), or wrote
    a text of the serialized structure to a file named by its keys; so an
    entry that existed before and is no such file is unchanged, and what is
    new is such a folder or file.  It reads nothing: started from another
    file system with the same directories and file names, it returns or
    raises the same, and every path is left alone by both runs or holds the
    same after both. *)
Theorem write_frame (ds : @DStabilityStructure Data) (filepath : path) fs :
  match serialize model_dump_json ds with
  | Ok sd =>
      ((write model_dump_json truediv parents ds filepath fs).2 = Ok filepath
       ∨ ∃ e, (write model_dump_json truediv parents ds filepath fs).2 = Raise e)
      ∧ (∀ p, touched (folder_targets filepath sd) (file_targets filepath sd)
                (texts sd) (fs p)
                ((write model_dump_json truediv parents ds filepath fs).1 p) p)
      ∧ (∀ p n, fs p = Some n → p ∉ file_targets filepath sd →
           (write model_dump_json truediv parents ds filepath fs).1 p = Some n)
      ∧ (∀ p, fs p = None →
           (write model_dump_json truediv parents ds filepath fs).1 p ≠ None →
           p ∈ folder_targets filepath sd ++ file_targets filepath sd)
  | Raise e =>
      write model_dump_json truediv parents ds filepath fs = (fs, Raise e)
  end
  ∧ ∀ fs2, same_shape fs fs2 →
      (write model_dump_json truediv parents ds filepath fs2).2
      = (write model_dump_json truediv parents ds filepath fs).2
      ∧ in_step fs fs2
          (write model_dump_json truediv parents ds filepath fs).1
          (write model_dump_json truediv parents ds filepath fs2).1.
Proof.
  unfold write.
  destruct (serialize model_dump_json ds) as [sd|e].
  - assert (∀ p, touched (folder_targets filepath sd)
                   (file_targets filepath sd) (texts sd) (fs p)
                   ((write_entries filepath sd fs).1 p) p) as Htouched
      by (intros p; apply write_entries_touched).
    split.
    + destruct (write_entries filepath sd fs) as [fs' [[]|e]]; simpl in *.
      * split_and!; [by left|done| |].
        -- intros p n Hp Hnot.
           destruct (Htouched p)
             as [->|[(Hb & _)|(_ & Hin & _)]]; [done|congruence|done].
        -- intros p Hp Hnew.
           destruct (Htouched p)
             as [Heq|[(_ & _ & Hin)|(_ & Hin & _)]];
             [congruence|apply elem_of_app; by left|apply elem_of_app; by right].
      * split_and!; [right; by exists e|done| |].
        -- intros p n Hp Hnot.
           destruct (Htouched p)
             as [->|[(Hb & _)|(_ & Hin & _)]]; [done|congruence|done].
        -- intros p Hp Hnew.
           destruct (Htouched p)
             as [Heq|[(_ & _ & Hin)|(_ & Hin & _)]];
             [congruence|apply elem_of_app; by left|apply elem_of_app; by right].
    + intros fs2 Hshape.
      destruct (write_entries_in_step filepath sd fs fs2 Hshape)
        as [Hres Hstep].
      destruct (write_entries filepath sd fs) as [fs' [[]|e1]],
               (write_entries filepath sd fs2) as [fs2' [[]|e2]];
        simpl in *; try done. split; [congruence | done].
  - split; [done|]. intros fs2 Hshape. split; [done | by apply in_step_refl].
Qed.

End write_facts.

(** [write] on the sample document, in a directory that holds a file of the
    user and an older [soils.json]. *)
Example write_sample :
  let r := DStability.write id SampleFiles.truediv SampleFiles.parents
             Sample.ds ["out"] SampleFiles.fs in
  r.2 = Ok ["out"]
  ∧ r.1 ["out"; "notes.txt"]
    = Some (DStability.Regular (Str.encode_utf8 "keep"))
  ∧ r.1 ["out"; "soils.json"]
    = Some (DStability.Regular (Str.encode_utf8 "{soils}"))
  ∧ r.1 ["out"; "waternets"] = Some DStability.Dir
  ∧ r.1 ["out"; "waternets"; "waternet_1.json"]
    = Some (DStability.Regular (Str.encode_utf8 "{w1}"))
  ∧ r.1 ["out"; "results"] = Some DStability.Dir
  ∧ r.1 ["out"; "results"; "upliftvan"; "upliftvanresult.json"]
    = Some (DStability.Regular (Str.encode_utf8 "{r0}"))
  ∧ r.1 ["out"; "other"] = None.
Proof. vm_compute. repeat split. Qed.

(** ** More on [serialize] *)

Section serialize_more.
Import DStability Layout.
Context {Data : Type} `{!Iterable Data} (model_dump_json : Data → string).
Implicit Types (ds : @DStabilityStructure Data).






Lemma serialize_fields_annotated ds1 ds2 hints acc :
  (∀ field, field ∈ hints.*1 → getattr ds1 field = getattr ds2 field) →
  serialize_fields model_dump_json ds1 hints acc
  = serialize_fields model_dump_json ds2 hints acc.
Proof.
  revert acc. induction hints as [|[field ty] hints IH]; intros acc Hget;
    csimpl in *; [done|].
  rewrite (Hget field) by apply list_elem_of_here.
  destruct ty, (getattr ds2 field) as [[?|?]|]; simpl; try case_decide;
    simpl; try done;
    apply IH; intros f Hf; apply Hget; by apply list_elem_of_further.
Qed.

(** X2.  [serialize] reads the attributes of the annotated fields and no
    others: two documents of one class that agree on them have the same
    serialized structure, and raise alike.  An attribute that the class
    does not annotate is never written. *)
Theorem serialize_reads_annotated ds1 ds2 :
  annotations ds1 = annotations ds2 →
  (∀ field, field ∈ (annotations ds1).*1 →
     getattr ds1 field = getattr ds2 field) →
  serialize model_dump_json ds1 = serialize model_dump_json ds2.
Proof.
  intros Hann Hget. unfold serialize, get_filtered_type_hints.
  rewrite <- Hann. by apply serialize_fields_annotated.
Qed.

End serialize_more.

Lemma serialize_reads_annotated_witness :
  DStability.serialize id SampleMore.ds_with_secret
  = DStability.serialize id Sample.ds.
Proof.
  apply serialize_reads_annotated.
  - reflexivity.
  - intros field Hin.
    repeat (apply elem_of_cons in Hin as [->|Hin];
            [vm_compute; reflexivity|]).
    by apply elem_of_nil in Hin.
Defined.

(** A list field that holds a single model: without fields it leaves an
    empty folder, with fields the first pair raises. *)
Example serialize_single_sample :
  DStability.serialize id (SampleMore.ds_single "{}")
  = Ok [("waternets", DStability.Folder [])]
  ∧ DStability.serialize id (SampleMore.ds_single "{w0}")
    = Raise AttributeError.
Proof. split; vm_compute; reflexivity. Qed.

(** ** More on [DStabilityInputZipSerializer.write] *)

Lemma str_app_assoc (a b c : string) : (a +:+ b) +:+ c = a +:+ b +:+ c.
Proof.
  induction a as [|x a IH]; [done|]. rewrite !str_app_cons. by rewrite IH.
Qed.

(** A string that ends with a slash is some string followed by a slash. *)
Lemma str_last_slash (s : string) :
  Str.last s = Some "/"%char → ∃ s', s = s' +:+ "/".
Proof.
  induction s as [|a s IH]; [done|]. destruct s as [|b s].
  - intros [= ->]. by exists "".
  - intros Hlast. destruct (IH Hlast) as [s' Hs'].
    exists (String a s'). rewrite str_app_cons. by rewrite <- Hs'.
Qed.

(** What makes a name portable, and that joining portable names gives
    one. *)
Lemma portable_spec (s : string) :
  Layout.portable s = true
  ↔ s ≠ "" ∧ Str.startswith "/" s = false
    ∧ Str.contains Str.backslash s = false
    ∧ Str.contains ":"%char s = false
    ∧ Str.contains Str.NUL s = false.
Proof.
  unfold Layout.portable.
  rewrite !andb_true_iff, !negb_true_iff, bool_decide_eq_true. tauto.
Qed.

Lemma startswith_slash_app (a b : string) :
  a ≠ "" → Str.startswith "/" (a +:+ b) = Str.startswith "/" a.
Proof. destruct a as [|x a]; [done|]. intros _. by rewrite str_app_cons. Qed.

Lemma portable_app (a b : string) :
  Layout.portable a = true →
  Str.contains Str.backslash b = false →
  Str.contains ":"%char b = false →
  Str.contains Str.NUL b = false →
  Layout.portable (a +:+ b) = true.
Proof.
  rewrite !portable_spec. intros (Ha & Hslash & Hb & Hc & Hn) Hb' Hc' Hn'.
  rewrite startswith_slash_app, !contains_app by done.
  rewrite Hb, Hc, Hn, Hb', Hc', Hn'. split_and!; [|done..].
  destruct a; [done|]. by rewrite str_app_cons.
Qed.

Lemma portable_before_slash (a : string) :
  Layout.portable (a +:+ "/") = true → Layout.portable a = true.
Proof.
  rewrite !portable_spec, !contains_app.
  intros (_ & Hslash & Hb & Hc & Hn).
  apply orb_false_iff in Hb as [Hb _], Hc as [Hc _], Hn as [Hn _].
  assert (a ≠ "") as Ha by (by intros ->).
  rewrite startswith_slash_app in Hslash by done. done.
Qed.

Lemma member_name_portable (folder ffilename : string) :
  Layout.portable folder = true → Layout.portable ffilename = true →
  Layout.portable (Layout.member_name folder ffilename) = true.
Proof.
  intros Hfolder Hfile. apply portable_spec in Hfile as (_ & _ & Hb & Hc & Hn).
  unfold Layout.member_name. case_decide.
  - by apply portable_app.
  - apply portable_app; [done|..]; rewrite contains_app;
      by rewrite ?Hb, ?Hc, ?Hn.
Qed.

Section zip_more.
Import DStability Layout.
Context {Data : Type} `{!Iterable Data} (model_dump_json : Data → string).
Context {Env Meta : Type} (ZipInfo_new : Env → string → ZipInfo Meta).
Implicit Types (env : Env) (zip : list (member Meta)).

Local Abbreviation new_member env :=
  (λ nt : string * string,
     {| zinfo := ZipInfo_new env nt.1; written := Str.encode_utf8 nt.2 |}).

Lemma members_texts (sd : list (string * entry)) : (members sd).*2 = texts sd.
Proof.
  unfold members, texts.
  induction sd as [|[filename [data|data]] sd IH]; csimpl; [done|by f_equal|].
  rewrite fmap_app, IH. f_equal. rewrite <- list_fmap_compose.
  by apply list_fmap_ext.
Qed.

Lemma new_member_written env (nts : list (string * string)) :
  written <$> (new_member env <$> nts) = Str.encode_utf8 <$> nts.*2.
Proof. by rewrite <- !list_fmap_compose. Qed.

Lemma normalize_written zip : written <$> normalize zip = written <$> zip.
Proof. unfold normalize. rewrite <- list_fmap_compose. done. Qed.

Lemma fmap_prefix_of {A B} (f : A → B) (l1 l2 : list A) :
  l1 `prefix_of` l2 → f <$> l1 `prefix_of` f <$> l2.
Proof. intros [k ->]. exists (f <$> k). apply fmap_app. Qed.

(** X3.  When [write] returns, the archive holds one member for every text
    of the serialized structure and no other: what was written to the
    members, in archive order, is the UTF-8 encoding of the texts in the
    order of the structure.  When [write] raises after [serialize] has
    returned, the archive holds the first of them; when [serialize]
    raises, [write] raises the same and the archive is empty. *)
Theorem zip_write_payloads {F : Type} env (ds : @DStabilityStructure Data)
    (filepath : F) :
  match serialize model_dump_json ds,
        zip_write model_dump_json ZipInfo_new env ds filepath with
  | Ok sd, (zip, Ok _) => written <$> zip = Str.encode_utf8 <$> texts sd
  | Ok sd, (zip, Raise _) =>
      written <$> zip `prefix_of` Str.encode_utf8 <$> texts sd
  | Raise e, r => r = ([], Raise e)
  end.
Proof.
  pose proof (zip_write_spec model_dump_json ZipInfo_new env ds filepath)
    as Hspec.
  destruct (serialize model_dump_json ds) as [sd|e]; [|done].
  destruct (zip_write_entries ZipInfo_new env sd []).2 as [[]|e].
  - rewrite Hspec, normalize_written, new_member_written.
    by rewrite members_texts.
  - destruct Hspec as (_ & pre & Hpre & ->).
    rewrite new_member_written, <- members_texts.
    by apply fmap_prefix_of, fmap_prefix_of.
Qed.

(** X4.  A folder without files leaves nothing in the archive: the loop
    over the serialized structure does for it what it does without it, and
    does not even look at its name, so that an empty name raises no
    [IndexError] there. *)
Theorem zip_skips_empty_folders env (sd : list (string * entry)) zip :
  zip_write_entries ZipInfo_new env
    (filter (λ kv, is_empty_folder kv.2 = false) sd) zip
  = zip_write_entries ZipInfo_new env sd zip.
Proof.
  revert zip. induction sd as [|[filename [data|[|f data]]] sd IH]; intros zip.
  - done.
  - rewrite filter_cons_True by done. simpl. apply IH.
  - rewrite filter_cons_False by done. simpl. apply IH.
  - rewrite filter_cons_True by done. simpl.
    destruct f as [ffilename fdata].
    destruct (Str.last filename) as [c|]; [|done].
    destruct (zip_write_files _ _ _ _ _) as [zip' [[]|e]]; [apply IH|done].
Qed.

Section layout_agreement.
Context {path : Type} (truediv : path → string → path).
Variable filepath : path.
Hypothesis join_twice : ∀ p a b,
  portable a = true → portable b = true →
  truediv (truediv p a) b = truediv p (a +:+ "/" +:+ b).
Hypothesis trailing_slash : ∀ p a,
  portable a = true → truediv p (a +:+ "/") = truediv p a.

(** Joining with the folder and then with the file is joining with the
    member name. *)
Lemma member_name_join (folder ffilename : string) :
  portable folder = true → portable ffilename = true →
  truediv (truediv filepath folder) ffilename
  = truediv filepath (member_name folder ffilename).
Proof.
  intros Hfolder Hfile. unfold member_name. case_decide as Hlast.
  - destruct (str_last_slash folder Hlast) as [folder' ->].
    pose proof (portable_before_slash folder' Hfolder) as Hfolder'.
    rewrite str_app_assoc, trailing_slash by done. by apply join_twice.
  - by apply join_twice.
Qed.

Lemma members_layout (sd : list (string * entry)) :
  portable_names sd →
  file_targets truediv filepath sd = truediv filepath <$> member_names sd
  ∧ Forall (λ name, portable name = true) (member_names sd).
Proof.
  unfold member_names, members, file_targets.
  induction 1 as [|[filename [data|data]] sd [Hname Hdata] _ [IH1 IH2]];
    csimpl in *.
  - done.
  - split; [by f_equal | by constructor].
  - rewrite !fmap_app. split.
    + f_equal; [|exact IH1]. rewrite <- !list_fmap_compose.
      apply list_fmap_ext. intros i f Hi. simpl.
      apply member_name_join; [done|].
      rewrite Forall_forall in Hdata.
      by apply Hdata, (list_elem_of_lookup_2 _ i).
    + apply Forall_app. split; [|exact IH2].
      rewrite <- list_fmap_compose.
      apply Forall_fmap. eapply Forall_impl; [exact Hdata|].
      intros f Hf. simpl. by apply member_name_portable.
Qed.

End layout_agreement.

(** X5.  The archive has the layout of the folder writer.  Take the
    portable names: those that are not empty, do not start with a slash
    and have no backslash, colon or NUL.  Suppose that for portable [a]
    and [b] joining a path with [a] and then with [b] is joining it with
    [a/b], that a slash after a portable name does not change a join, and
    that [ZipInfo] keeps a portable name as it is given; and take a
    serialized structure whose keys and file names are portable.  Then the
    names of the members of a returned archive, joined to [filepath], are
    the paths of the files that the folder writer writes under
    [filepath], in the same order: the slash that the zip writer puts
    after a folder name, unless it is there, is the one of the path
    join. *)
Theorem archive_layout {F path : Type} (truediv : path → string → path)
    (filepath : path) env (ds : @DStabilityStructure Data) (stix : F) sd zip :
  (∀ p a b, portable a = true → portable b = true →
     truediv (truediv p a) b = truediv p (a +:+ "/" +:+ b)) →
  (∀ p a, portable a = true → truediv p (a +:+ "/") = truediv p a) →
  (∀ name, portable name = true → zi_filename (ZipInfo_new env name) = name) →
  serialize model_dump_json ds = Ok sd →
  portable_names sd →
  zip_write model_dump_json ZipInfo_new env ds stix = (zip, Ok stix) →
  (λ m, truediv filepath (zi_filename (zinfo m))) <$> zip
  = file_targets truediv filepath sd.
Proof.
  intros Hjoin Hslash Hname Hsd Hportable Hzip.
  pose proof (zip_write_spec model_dump_json ZipInfo_new env ds stix) as Hspec.
  rewrite Hsd in Hspec.
  destruct (zip_write_entries ZipInfo_new env sd []).2 as [[]|e];
    [|destruct Hspec as (_ & pre & _ & Hraise); congruence].
  rewrite Hspec in Hzip. injection Hzip as <-.
  destruct (members_layout truediv filepath Hjoin Hslash sd Hportable)
    as [-> Hnames].
  unfold normalize, member_names. rewrite <- !list_fmap_compose.
  apply list_fmap_ext. intros i nt Hi. simpl. f_equal. apply Hname.
  rewrite Forall_forall in Hnames. apply Hnames.
  apply list_elem_of_fmap. exists nt. split; [done|].
  by apply list_elem_of_lookup_2 in Hi.
Qed.

End zip_more.

(** The sample paths join as the layout theorem asks, and the sample
    [ZipInfo] keeps a portable name. *)
Lemma components_slash (current a b : string) :
  SampleFiles.components current (a +:+ "/" +:+ b)
  = SampleFiles.components current a ++ SampleFiles.components "" b.
Proof.
  revert current. induction a as [|c a IH]; intros current.
  - done.
  - rewrite str_app_cons. simpl. destruct (decide (c = "/"%char)).
    + by rewrite IH, app_assoc.
    + apply IH.
Qed.

Lemma sample_parts_slash (a b : string) :
  SamplePosix.parts (a +:+ "/" +:+ b)
  = SamplePosix.parts a ++ SamplePosix.parts b.
Proof.
  unfold SamplePosix.parts. by rewrite components_slash, filter_app.
Qed.

Lemma sample_join_twice (p : list string) (a b : string) :
  Layout.portable a = true → Layout.portable b = true →
  SamplePosix.truediv (SamplePosix.truediv p a) b
  = SamplePosix.truediv p (a +:+ "/" +:+ b).
Proof.
  intros (Ha & Haslash & _)%portable_spec (_ & Hbslash & _)%portable_spec.
  unfold SamplePosix.truediv.
  rewrite startswith_slash_app, Haslash, Hbslash by done.
  by rewrite sample_parts_slash, app_assoc.
Qed.

Lemma sample_trailing_slash (p : list string) (a : string) :
  Layout.portable a = true →
  SamplePosix.truediv p (a +:+ "/") = SamplePosix.truediv p a.
Proof.
  intros (Ha & Haslash & _)%portable_spec. unfold SamplePosix.truediv.
  rewrite startswith_slash_app, Haslash by done.
  change (a +:+ "/") with (a +:+ "/" +:+ "").
  rewrite sample_parts_slash. by rewrite app_nil_r.
Qed.

Lemma sample_zipinfo_kept (env : SampleZip.platform) (name : string) :
  Layout.portable name = true →
  DStability.zi_filename (SampleZip.ZipInfo_new env name) = name.
Proof.
  intros (_ & _ & Hb & _ & Hn)%portable_spec.
  unfold SampleZip.ZipInfo_new. simpl. rewrite (before_absent _ _ Hn).
  destruct env; [by apply replace_absent | done].
Qed.

Lemma archive_layout_witness :
  (λ m, SamplePosix.truediv ["out"]
          (DStability.zi_filename (DStability.zinfo m)))
    <$> SampleZip.archive
  = DStability.file_targets SamplePosix.truediv ["out"] Sample.serialized.
Proof.
  apply (archive_layout id SampleZip.ZipInfo_new SamplePosix.truediv ["out"]
           SampleZip.linux Sample.ds "sample.stix").
  - apply sample_join_twice.
  - apply sample_trailing_slash.
  - apply sample_zipinfo_kept.
  - vm_compute. reflexivity.
  - unfold Layout.portable_names.
    repeat first [ apply Forall_cons; split | apply Forall_nil | split
                 | exact I | (vm_compute; reflexivity) ].
  - vm_compute. reflexivity.
Defined.

(** ** More on [DStabilityInputSerializer.write] *)

Section write_more.
Import DStability Layout.
Context {Data : Type} `{!Iterable Data} (model_dump_json : Data → string).
Context {path : Type} `{EqDecision path}.
Context (truediv : path → string → path) (parents : path → list path).
Implicit Types (fs : path → option node) (p : path).

Local Abbreviation touched := (touched (path := path)).
Local Abbreviation write_bytes := (write_bytes parents).
Local Abbreviation write_files := (write_files truediv parents).
Local Abbreviation write_entries := (write_entries truediv parents).
Local Abbreviation file_targets := (file_targets truediv).
Local Abbreviation folder_targets := (folder_targets truediv parents).
Local Abbreviation file_contents := (file_contents truediv).
Local Abbreviation write := (write model_dump_json truediv parents).
Local Abbreviation written_at := (written_at parents).

(** A directory stays, and so does a file that is no target. *)
Lemma touched_dir_stays (dirs files : list path) (texts : list string)
    (after : option node) p :
  touched dirs files texts (Some Dir) after p → after = Some Dir.
Proof. intros [->|[(Hb & _)|(Hb & _)]]; done. Qed.

Lemma touched_file_stays (dirs files : list path) (texts : list string)
    (content : list Byte.byte) (after : option node) p :
  touched dirs files texts (Some (Regular content)) after p →
  p ∉ files → after = Some (Regular content).
Proof. intros [->|[(Hb & _)|(_ & Hin & _)]] Hnot; done. Qed.

Lemma file_contents_targets (filepath : path) (sd : list (string * entry)) :
  (file_contents filepath sd).*1 = file_targets filepath sd.
Proof.
  unfold Layout.file_contents, DStability.file_targets.
  induction sd as [|[filename [data|data]] sd IH]; csimpl; [done|..].
  - by rewrite IH.
  - rewrite fmap_app, IH. f_equal. by rewrite <- list_fmap_compose.
Qed.

(** When [mkdir] returns, the chain consists of directories. *)
Lemma mkdir_chain_dirs (chain : list path) fs fs1 (d : path) :
  mkdir_chain chain fs = (fs1, Ok ()) → d ∈ chain → fs1 d = Some Dir.
Proof.
  revert fs. induction chain as [|a chain IH]; intros fs Hmk Hd.
  - by apply elem_of_nil in Hd.
  - pose proof (mkdir_chain_touched chain) as Hrest. simpl in Hmk.
    destruct (fs a) as [[|content]|] eqn:Ha; [|done|].
    + apply elem_of_cons in Hd as [->|Hd]; [|by eapply IH].
      specialize (Hrest fs a). rewrite Hmk, Ha in Hrest.
      by eapply touched_dir_stays.
    + apply elem_of_cons in Hd as [->|Hd]; [|by eapply IH].
      specialize (Hrest (<[a := Some Dir]> fs) a).
      rewrite Hmk, fn_lookup_insert in Hrest.
      by eapply touched_dir_stays.
Qed.

(** When a file is written, it holds the data, and it stands in a
    directory. *)
Lemma write_bytes_written (fn : path) (data : list Byte.byte) fs fs1 :
  write_bytes fn data fs = (fs1, Ok ()) →
  fs1 fn = Some (Regular data)
  ∧ ∀ d, list.last (parents fn) = Some d → fs1 d = Some Dir.
Proof.
  unfold DStability.write_bytes.
  destruct (list.last (parents fn)) as [d|].
  - destruct (fs d) as [[|?]|] eqn:Hd; try done.
    destruct (fs fn) as [[|?]|] eqn:Hfn; try done;
      intros [= <-]; (split; [apply fn_lookup_insert|]);
      intros d' [= <-]; rewrite fn_lookup_insert_ne; congruence.
  - destruct (fs fn) as [[|?]|] eqn:Hfn; try done;
      intros [= <-]; (split; [apply fn_lookup_insert | done]).
Qed.

Lemma write_files_settled (folder : path) (data : list (string * string))
    fs fs' :
  write_files folder data fs = (fs', Ok ()) →
  NoDup (truediv folder <$> data.*1) →
  ∀ f, f ∈ data → written_at fs' (truediv folder f.1, f.2).
Proof.
  revert fs. induction data as [|[name text] data IH]; intros fs Hw Hnd f Hf.
  - by apply elem_of_nil in Hf.
  - csimpl in *. apply NoDup_cons in Hnd as [Hnot Hnd].
    destruct (write_bytes (truediv folder name) (Str.encode_utf8 text) fs)
      as [fs1 [[]|e]] eqn:Hstep; [|done].
    apply elem_of_cons in Hf as [->|Hf]; [|by eapply IH].
    destruct (write_bytes_written _ _ _ _ Hstep) as [Hfile Hdir].
    pose proof (write_files_touched truediv parents folder data fs1) as Hrest.
    rewrite Hw in Hrest. simpl in Hrest. split; simpl.
    + specialize (Hrest (truediv folder name)). rewrite Hfile in Hrest.
      by eapply touched_file_stays.
    + intros d Hd. specialize (Hrest d). rewrite (Hdir d Hd) in Hrest.
      by eapply touched_dir_stays.
Qed.

Lemma write_entries_settled (filepath : path) (sd : list (string * entry))
    fs fs' :
  write_entries filepath sd fs = (fs', Ok ()) →
  NoDup (file_targets filepath sd) →
  (∀ d, d ∈ folder_targets filepath sd → fs' d = Some Dir)
  ∧ (∀ pt, pt ∈ file_contents filepath sd → written_at fs' pt).
Proof.
  revert fs. induction sd as [|[filename [data|data]] sd IH]; intros fs Hw Hnd.
  - split; intros ? Hin; by apply elem_of_nil in Hin.
  - unfold DStability.file_targets, DStability.folder_targets,
      Layout.file_contents in *. csimpl in *.
    fold (file_targets filepath sd) (folder_targets filepath sd)
      (file_contents filepath sd) in *.
    apply NoDup_cons in Hnd as [Hnot Hnd].
    destruct (write_bytes (truediv filepath filename)
                (Str.encode_utf8 data) fs) as [fs1 [[]|e]] eqn:Hstep; [|done].
    destruct (IH _ Hw Hnd) as [Hdirs Hfiles]. split; [done|].
    intros pt [->|Hpt]%elem_of_cons; [|auto].
    destruct (write_bytes_written _ _ _ _ Hstep) as [Hfile Hdir].
    pose proof (write_entries_touched truediv parents filepath sd fs1)
      as Hrest.
    rewrite Hw in Hrest. simpl in Hrest. split; simpl.
    + specialize (Hrest (truediv filepath filename)).
      rewrite Hfile in Hrest. by eapply touched_file_stays.
    + intros d Hd. specialize (Hrest d). rewrite (Hdir d Hd) in Hrest.
      by eapply touched_dir_stays.
  - unfold DStability.file_targets, DStability.folder_targets,
      Layout.file_contents in *. csimpl in *.
    fold (file_targets filepath sd) (folder_targets filepath sd)
      (file_contents filepath sd) in *.
    apply NoDup_app in Hnd as (Hnd1 & Hdisj & Hnd2).
    set (folder := truediv filepath filename) in *.
    unfold DStability.mkdir in Hw.
    destruct (mkdir_chain (parents folder ++ [folder]) fs)
      as [fs1 [[]|e]] eqn:Hmk; [|done].
    destruct (write_files folder data fs1) as [fs2 [[]|e]] eqn:Hfs; [|done].
    destruct (IH _ Hw Hnd2) as [Hdirs Hfiles].
    pose proof (write_entries_touched truediv parents filepath sd fs2)
      as Hrest.
    rewrite Hw in Hrest. simpl in Hrest.
    pose proof (write_files_touched truediv parents folder data fs1)
      as Hmid.
    rewrite Hfs in Hmid. simpl in Hmid.
    split.
    + intros d [Hd|Hd]%elem_of_app; [|auto].
      pose proof (mkdir_chain_dirs _ _ _ d Hmk Hd) as Hd1.
      specialize (Hmid d). rewrite Hd1 in Hmid.
      apply touched_dir_stays in Hmid.
      specialize (Hrest d). rewrite Hmid in Hrest.
      by eapply touched_dir_stays.
    + intros pt [Hpt|Hpt]%elem_of_app; [|auto].
      apply list_elem_of_fmap in Hpt as (f & -> & Hf).
      assert (NoDup (truediv folder <$> data.*1)) as Hnd1'
        by (by rewrite <- list_fmap_compose).
      destruct (write_files_settled folder data fs1 fs2 Hfs Hnd1' f Hf)
        as [Hfile Hdir].
      split; simpl in *.
      * specialize (Hrest (truediv folder f.1)). rewrite Hfile in Hrest.
        eapply touched_file_stays; [done|].
        apply Hdisj. apply list_elem_of_fmap. by exists f.
      * intros d Hd. specialize (Hrest d). rewrite (Hdir d Hd) in Hrest.
        by eapply touched_dir_stays.
Qed.

(** X6.  When [write] returns and the serialized structure names no file
    twice, the structure is on disk: every folder it names is a directory,
    with its ancestors, and every file it names holds the UTF-8 encoding
    of its text. *)
Theorem write_postcondition (ds : @DStabilityStructure Data)
    (filepath : path) fs fs' sd :
  serialize model_dump_json ds = Ok sd →
  NoDup (file_targets filepath sd) →
  write ds filepath fs = (fs', Ok filepath) →
  (∀ d, d ∈ folder_targets filepath sd → fs' d = Some Dir)
  ∧ (∀ p text, (p, text) ∈ file_contents filepath sd →
       fs' p = Some (Regular (Str.encode_utf8 text))).
Proof.
  intros Hsd Hnd Hw. unfold DStability.write in Hw. rewrite Hsd in Hw.
  destruct (write_entries filepath sd fs) as [fs1 [[]|e]] eqn:Hentries;
    [|done].
  injection Hw as <-.
  destruct (write_entries_settled _ _ _ _ Hentries Hnd) as [Hdirs Hfiles].
  split; [done|]. intros p text Hin. by destruct (Hfiles _ Hin).
Qed.

(** A second run on a file system that holds the structure does nothing. *)
Lemma mkdir_chain_again (F : path → option node) (chain : list path) fs :
  (∀ p, fs p = F p) → (∀ d, d ∈ chain → F d = Some Dir) →
  mkdir_chain chain fs = (fs, Ok ()).
Proof.
  intros Hext Hdirs. induction chain as [|a chain IH]; [done|].
  simpl. rewrite Hext, (Hdirs a) by apply list_elem_of_here.
  apply IH. intros d Hd. apply Hdirs. by apply list_elem_of_further.
Qed.

Lemma write_bytes_again (F : path → option node) (fn : path) (text : string)
    fs :
  (∀ p, fs p = F p) → written_at F (fn, text) →
  ∃ fs1, write_bytes fn (Str.encode_utf8 text) fs = (fs1, Ok ())
         ∧ ∀ p, fs1 p = F p.
Proof.
  intros Hext [Hfile Hdir]. simpl in *.
  exists (<[fn := Some (Regular (Str.encode_utf8 text))]> fs).
  split.
  - unfold DStability.write_bytes.
    destruct (list.last (parents fn)) as [d|].
    + by rewrite (Hext d), (Hdir d eq_refl), (Hext fn), Hfile.
    + by rewrite (Hext fn), Hfile.
  - intros p. destruct (decide (fn = p)) as [->|Hne].
    + by rewrite fn_lookup_insert.
    + by rewrite fn_lookup_insert_ne.
Qed.

Lemma write_files_again (F : path → option node) (folder : path)
    (data : list (string * string)) fs :
  (∀ p, fs p = F p) →
  (∀ f, f ∈ data → written_at F (truediv folder f.1, f.2)) →
  ∃ fs1, write_files folder data fs = (fs1, Ok ()) ∧ ∀ p, fs1 p = F p.
Proof.
  revert fs. induction data as [|[name text] data IH]; intros fs Hext Hall.
  - by exists fs.
  - simpl.
    destruct (write_bytes_again F (truediv folder name) text fs Hext)
      as (fs1 & -> & Hext1); [apply (Hall (name, text)), list_elem_of_here|].
    apply IH; [done|]. intros f Hf. apply Hall. by apply list_elem_of_further.
Qed.

Lemma write_entries_again (F : path → option node) (filepath : path)
    (sd : list (string * entry)) fs :
  (∀ p, fs p = F p) →
  (∀ d, d ∈ folder_targets filepath sd → F d = Some Dir) →
  (∀ pt, pt ∈ file_contents filepath sd → written_at F pt) →
  ∃ fs1, write_entries filepath sd fs = (fs1, Ok ()) ∧ ∀ p, fs1 p = F p.
Proof.
  revert fs.
  induction sd as [|[filename [data|data]] sd IH]; intros fs Hext Hdirs Hfiles.
  - by exists fs.
  - unfold DStability.folder_targets, Layout.file_contents in *.
    csimpl in *.
    destruct (write_bytes_again F (truediv filepath filename) data fs Hext)
      as (fs1 & -> & Hext1); [apply Hfiles, list_elem_of_here|].
    apply IH; [done|done|]. intros pt Hpt. apply Hfiles.
    by apply list_elem_of_further.
  - unfold DStability.folder_targets, Layout.file_contents in *.
    csimpl in *. unfold DStability.mkdir.
    rewrite (mkdir_chain_again F) by
      (done || (intros d Hd; apply Hdirs, elem_of_app; by left)).
    destruct (write_files_again F (truediv filepath filename) data fs Hext)
      as (fs1 & -> & Hext1).
    { intros f Hf. apply Hfiles, elem_of_app. left.
      apply list_elem_of_fmap. by exists f. }
    apply IH; [done|..].
    + intros d Hd. apply Hdirs, elem_of_app. by right.
    + intros pt Hpt. apply Hfiles, elem_of_app. by right.
Qed.

(** X7.  Writing again is harmless: when [write] has returned and the
    serialized structure names no file twice, a second [write] of the same
    document to the same path returns too and leaves every path as the
    first left it. *)
Theorem write_twice (ds : @DStabilityStructure Data) (filepath : path)
    fs fs' sd :
  serialize model_dump_json ds = Ok sd →
  NoDup (file_targets filepath sd) →
  write ds filepath fs = (fs', Ok filepath) →
  (write ds filepath fs').2 = Ok filepath
  ∧ ∀ p, (write ds filepath fs').1 p = fs' p.
Proof.
  intros Hsd Hnd Hw. unfold DStability.write in *. rewrite Hsd in *.
  destruct (write_entries filepath sd fs) as [fs1 [[]|e]] eqn:Hentries;
    [|done].
  injection Hw as <-.
  destruct (write_entries_settled _ _ _ _ Hentries Hnd) as [Hdirs Hfiles].
  destruct (write_entries_again fs1 filepath sd fs1) as (fs2 & -> & Hext);
    done.
Qed.

End write_more.

Lemma write_postcondition_witness :
  let fs' := (DStability.write id SampleFiles.truediv SampleFiles.parents
                Sample.ds ["out"] SampleFiles.fs).1 in
  fs' ["out"; "results"; "upliftvan"] = Some DStability.Dir
  ∧ fs' ["out"; "waternets"; "waternet_2.json"]
    = Some (DStability.Regular (Str.encode_utf8 "{w2}")).
Proof.
  intros fs'.
  destruct (write_postcondition id SampleFiles.truediv SampleFiles.parents
              Sample.ds ["out"] SampleFiles.fs fs' Sample.serialized)
    as [Hdirs Hfiles].
  - vm_compute. reflexivity.
  - vm_compute. repeat constructor; intros Hin;
      repeat (apply elem_of_cons in Hin as [Hin|Hin]; [discriminate Hin|]);
      by apply elem_of_nil in Hin.
  - apply injective_projections; [reflexivity | vm_compute; reflexivity].
  - split.
    + apply Hdirs. vm_compute. repeat constructor.
    + apply Hfiles. vm_compute. repeat constructor.
Defined.

Lemma write_twice_witness :
  let fs' := (DStability.write id SampleFiles.truediv SampleFiles.parents
                Sample.ds ["out"] SampleFiles.fs).1 in
  (DStability.write id SampleFiles.truediv SampleFiles.parents
     Sample.ds ["out"] fs').2 = Ok ["out"].
Proof.
  intros fs'.
  apply (write_twice id SampleFiles.truediv SampleFiles.parents
           Sample.ds ["out"] SampleFiles.fs fs' Sample.serialized).
  - vm_compute. reflexivity.
  - vm_compute. repeat constructor; intros Hin;
      repeat (apply elem_of_cons in Hin as [Hin|Hin]; [discriminate Hin|]);
      by apply elem_of_nil in Hin.
  - apply injective_projections; [reflexivity | vm_compute; reflexivity].
Defined.

(** ** [SoilCollection]: adding and finding soils *)

Section soils_more.
Import DFoundations Lookup.
Context {Soil : Type} (soil_name : Soil → string).
Implicit Types (h : @heap Soil) (l : list Soil) (self : SoilCollection).

Local Abbreviation add_soil_if_unique := (add_soil_if_unique soil_name).
Local Abbreviation find_soil_id := (find_soil_id soil_name).
Local Abbreviation getitem := (SoilCollection_getitem soil_name).
Local Abbreviation names := (fmap (M := list) soil_name).

(** The loop of [add_soil_if_unique] raises exactly when the name is
    taken. *)
Lemma check_unique_spec (s : Soil) l :
  check_unique soil_name s l
  = if decide (soil_name s ∈ names l)
    then Raise (NameError ("Soil with name " +:+ soil_name s
                           +:+ " already exists."))
    else Ok ().
Proof.
  induction l as [|added l IH]; csimpl.
  - destruct (decide (soil_name s ∈ [])) as [Hin|_];
      [by apply elem_of_nil in Hin | done].
  - destruct (decide (soil_name s = soil_name added)) as [Heq|Hne].
    + rewrite decide_True; [done|]. rewrite Heq. apply list_elem_of_here.
    + rewrite IH. apply decide_ext. rewrite elem_of_cons.
      split; [by right | intros [Heq|Hin]; [done | done]].
Qed.

(** X8.  [add_soil_if_unique] raises [NameError] exactly when a stored soil
    has the name of the new one, and then it has changed nothing; otherwise
    it returns the soil, has appended it to the list of the collection, and
    has left every other list as it was. *)
Theorem add_soil_if_unique_spec self (s : Soil) h :
  if decide (soil_name s ∈ names (lists h (soil self)))
  then add_soil_if_unique self s h
       = (h, Raise (NameError ("Soil with name " +:+ soil_name s
                               +:+ " already exists.")))
  else (add_soil_if_unique self s h).2 = Ok s
       ∧ lists (add_soil_if_unique self s h).1 (soil self)
         = lists h (soil self) ++ [s]
       ∧ next_loc (add_soil_if_unique self s h).1 = next_loc h
       ∧ ∀ x : loc, x ≠ soil self →
           lists (add_soil_if_unique self s h).1 x = lists h x.
Proof.
  unfold DFoundations.add_soil_if_unique. rewrite check_unique_spec.
  case_decide; [done|]. simpl. split_and!; [done| |done|].
  - apply fn_lookup_insert.
  - intros x Hx. by apply fn_lookup_insert_ne.
Qed.

(** X9.  [add_soil_if_unique] keeps the names of a collection pairwise
    distinct, whether it returns or raises. *)
Theorem add_soil_keeps_names_unique self (s : Soil) h :
  NoDup (names (lists h (soil self))) →
  NoDup (names (lists (add_soil_if_unique self s h).1 (soil self))).
Proof.
  intros Hnd. rewrite add_soil_self, check_unique_spec.
  destruct (decide (soil_name s ∈ names (lists h (soil self)))) as [Hin|Hnot].
  - done.
  - rewrite fmap_app.
    apply NoDup_app. split_and!; [done| |apply NoDup_singleton].
    intros x Hx Hx'%list_elem_of_singleton. by subst.
Qed.

(** The two loops over the soils find the first soil of the name. *)
Lemma find_soil_from_find (key : string) (i : nat) l :
  find_soil_from soil_name key i l
  = match list_find (λ s, soil_name s = key) l with
    | Some (j, _) => Returns (i + j)
    | None => RaisesKeyError ("Soil with " +:+ key +:+ " not present.")
    end.
Proof.
  revert i. induction l as [|s l IH]; intros i; simpl; [done|].
  destruct (decide (soil_name s = key)); simpl.
  - by rewrite Nat.add_0_r.
  - rewrite IH. destruct (list_find _ l) as [[j x]|]; simpl; [|done].
    f_equal. lia.
Qed.

Lemma soil_named_find (key : string) l :
  soil_named soil_name key l
  = match list_find (λ s, soil_name s = key) l with
    | Some (_, s) => Returns s
    | None => RaisesKeyError key
    end.
Proof.
  induction l as [|s l IH]; simpl; [done|].
  destruct (decide (soil_name s = key)); simpl; [done|].
  rewrite IH. by destruct (list_find _ l) as [[j x]|].
Qed.

Lemma list_getitem_nat {A} (l : list A) (i : nat) (x : A) :
  l !! i = Some x → list_getitem l (Z.of_nat i) = Returns x.
Proof.
  intros Hi. pose proof (lookup_lt_Some _ _ _ Hi) as Hlt.
  unfold list_getitem. rewrite decide_True by lia.
  by rewrite Nat2Z.id, Hi.
Qed.

(** [l[-1]] is the last element. *)
Lemma list_getitem_last {A} (l : list A) (x : A) :
  list_getitem (l ++ [x]) (-1) = Returns x.
Proof.
  unfold list_getitem. rewrite length_app. cbn [length].
  destruct (decide (0 ≤ -1 < Z.of_nat (length l + 1))%Z) as [?|_]; [lia|].
  destruct (decide (- Z.of_nat (length l + 1) ≤ -1 < 0)%Z) as [_|?]; [|lia].
  replace (Z.to_nat (Z.of_nat (length l + 1) + -1)) with (length l) by lia.
  by rewrite list_lookup_middle.
Qed.

(** X10.  [find_soil_id(key)] returns the index of the first soil named
    [key]: the soil at that index has the name and no soil before it has.
    It raises [KeyError] exactly when no soil has the name. *)
Theorem find_soil_id_first self (key : string) h :
  match find_soil_id self key h with
  | Returns i =>
      ∃ s, lists h (soil self) !! i = Some s
           ∧ soil_name s = key
           ∧ ∀ j s', lists h (soil self) !! j = Some s' → j < i →
                     soil_name s' ≠ key
  | RaisesKeyError arg =>
      arg = "Soil with " +:+ key +:+ " not present."
      ∧ key ∉ names (lists h (soil self))
  | ReturnsNone | RaisesIndexError => False
  end.
Proof.
  unfold Lookup.find_soil_id. rewrite find_soil_from_find.
  destruct (list_find _ (lists h (soil self))) as [[i s]|] eqn:Hfind.
  - apply list_find_Some in Hfind as (Hi & Hs & Hfirst). by exists s.
  - split; [done|]. apply list_find_None in Hfind.
    rewrite Forall_forall in Hfind.
    intros (s & Hs & Hin)%list_elem_of_fmap. by apply (Hfind s).
Qed.

(** X11.  Looking a soil up by the id that [find_soil_id] gives for a name
    and looking it up by the name give the same soil, which has that name;
    and [self[key]] raises [KeyError(key)] for a name exactly when
    [find_soil_id] raises. *)
Theorem getitem_by_id_and_name self (key : string) h :
  match find_soil_id self key h with
  | Returns i =>
      ∃ s, getitem self (KInt (Z.of_nat i)) h = Returns s
           ∧ getitem self (KStr key) h = Returns s
           ∧ soil_name s = key
  | RaisesKeyError _ => getitem self (KStr key) h = RaisesKeyError key
  | ReturnsNone | RaisesIndexError => False
  end.
Proof.
  unfold Lookup.find_soil_id, SoilCollection_getitem.
  rewrite find_soil_from_find, soil_named_find.
  destruct (list_find _ (lists h (soil self))) as [[i s]|] eqn:Hfind; [|done].
  apply list_find_Some in Hfind as (Hi & Hs & _).
  exists s. split_and!; [|done..]. by apply list_getitem_nat.
Qed.

(** X12.  A soil that [add_soil_if_unique] has added is found: by its name,
    with [find_soil_id] at the index that was the length of the list, and
    as the last element.  The ids of the soils that were there before stay
    what they were. *)
Theorem add_soil_then_lookup self (s : Soil) h :
  (add_soil_if_unique self s h).2 = Ok s →
  find_soil_id self (soil_name s) (add_soil_if_unique self s h).1
  = Returns (length (lists h (soil self)))
  ∧ getitem self (KStr (soil_name s)) (add_soil_if_unique self s h).1
    = Returns s
  ∧ getitem self (KInt (-1)) (add_soil_if_unique self s h).1 = Returns s
  ∧ ∀ key i, find_soil_id self key h = Returns i →
      find_soil_id self key (add_soil_if_unique self s h).1 = Returns i.
Proof.
  intros Hok. rewrite add_soil_result, check_unique_spec in Hok.
  pose proof (add_soil_self soil_name self s h) as Hlist.
  rewrite check_unique_spec in Hlist.
  destruct (decide (soil_name s ∈ names (lists h (soil self)))) as [Hin|Hnot].
  { discriminate Hok. }
  unfold Lookup.find_soil_id, SoilCollection_getitem. rewrite Hlist.
  assert (list_find (λ x, soil_name x = soil_name s) (lists h (soil self))
          = None) as Hnone.
  { apply list_find_None, Forall_forall. intros x Hx Heq. apply Hnot.
    rewrite <- Heq. by apply list_elem_of_fmap_2. }
  split_and!.
  - rewrite find_soil_from_find, (list_find_app_r _ _ _ Hnone). simpl.
    by rewrite decide_True.
  - rewrite soil_named_find, (list_find_app_r _ _ _ Hnone). simpl.
    by rewrite decide_True.
  - apply list_getitem_last.
  - intros key i. rewrite !find_soil_from_find.
    destruct (list_find (λ x, soil_name x = key) (lists h (soil self)))
      as [[j x]|] eqn:Hfind; intros Heq; [|discriminate Heq].
    by rewrite (list_find_app_l _ _ _ _ _ Hfind).
Qed.

End soils_more.

Lemma add_soil_keeps_names_unique_witness :
  NoDup (id <$> DFoundations.lists
           (DFoundations.add_soil_if_unique id SampleLookup.collection
              "Peat" SampleLookup.h).1
           (DFoundations.soil SampleLookup.collection)).
Proof.
  apply (add_soil_keeps_names_unique id SampleLookup.collection "Peat"
           SampleLookup.h).
  vm_compute. repeat constructor; intros Hin;
    repeat (apply elem_of_cons in Hin as [Hin|Hin]; [discriminate Hin|]);
    by apply elem_of_nil in Hin.
Defined.

Lemma add_soil_then_lookup_witness :
  Lookup.find_soil_id id SampleLookup.collection "Peat"
    (DFoundations.add_soil_if_unique id SampleLookup.collection
       "Peat" SampleLookup.h).1
  = Lookup.Returns 2.
Proof.
  destruct (add_soil_then_lookup id SampleLookup.collection "Peat"
              SampleLookup.h) as (Hfind & _).
  - vm_compute. reflexivity.
  - exact Hfind.
Defined.

(** ** [CPTList]: adding and finding CPTs *)

Section cpts_more.
Import DFoundations Lookup.
Context {Other : Type}.
Implicit Types (store : loc → @CPT Other) (self : @CPTList Other).

(** An index below the length of a list finds the same after an append. *)
Lemma list_getitem_app_l {A} (l : list A) (x : A) (i : Z) :
  (0 ≤ i < Z.of_nat (length l))%Z →
  list_getitem (l ++ [x]) i = list_getitem l i.
Proof.
  intros Hi. unfold list_getitem. rewrite length_app. cbn [length].
  rewrite !decide_True by lia.
  by rewrite lookup_app_l by lia.
Qed.

(** The lookup by name reads the names only, and goes through the list
    from the front. *)
Lemma cpt_named_ext store1 store2 (key : string) (cpts : list loc) :
  (∀ c, cptname (store1 c) = cptname (store2 c)) →
  cpt_named store1 key cpts = cpt_named store2 key cpts.
Proof.
  intros Hnames. induction cpts as [|c cpts IH]; simpl; [done|].
  by rewrite Hnames, IH.
Qed.

Lemma cpt_named_snoc store (key : string) (cpts : list loc) (c : loc) :
  cpt_named store key (cpts ++ [c])
  = match cpt_named store key cpts with
    | Returns found => Returns found
    | _ => if decide (cptname (store c) = key) then Returns c
           else RaisesKeyError key
    end.
Proof.
  induction cpts as [|c' cpts IH]; simpl; [done|].
  destruct (decide (cptname (store c') = key)); [done|]. apply IH.
Qed.

Lemma cpt_named_answer store (key : string) (cpts : list loc) :
  (∃ c, cpt_named store key cpts = Returns c)
  ∨ cpt_named store key cpts = RaisesKeyError key.
Proof.
  induction cpts as [|c cpts IH]; simpl; [by right|].
  destruct (decide (cptname (store c) = key)); [left; by exists c | done].
Qed.

(** [add_cpt] assigns [timeorder_type] and nothing else. *)
Lemma force_timeorder_frame (cpt : loc) (existing : list loc) store (c : loc) :
  cptname (force_timeorder cpt existing store c) = cptname (store c)
  ∧ cpt_other (force_timeorder cpt existing store c) = cpt_other (store c)
  ∧ (c ∉ existing → force_timeorder cpt existing store c = store c).
Proof.
  rewrite force_timeorder_lookup. by case_decide.
Qed.

(** X13.  The id that [add_cpt] returns finds the CPT that was added, and
    so does the index -1.  A lookup by name finds what it found before the
    call, if it found a CPT; it finds the added CPT only when no stored CPT
    had its name: [add_cpt] does not reject a name that is taken, and the
    lookup by name then never reaches the newer CPT. *)
Theorem add_cpt_getitem (cpt : loc) self :
  CPTList_getitem (add_cpt cpt self).1 (KInt (add_cpt cpt self).2)
  = Returns cpt
  ∧ CPTList_getitem (add_cpt cpt self).1 (KInt (-1)) = Returns cpt
  ∧ ∀ key,
      CPTList_getitem (add_cpt cpt self).1 (KStr key)
      = match CPTList_getitem self (KStr key) with
        | Returns found => Returns found
        | _ => if decide (cptname (cpt_store self cpt) = key)
               then Returns cpt
               else RaisesKeyError key
        end.
Proof.
  unfold add_cpt, CPTList_getitem. cbn [fst snd cpt_collection cpt_store].
  split_and!.
  - rewrite length_app. cbn [length].
    replace (Z.of_nat (length (cpt_collection self) + 1) - 1)%Z
      with (Z.of_nat (length (cpt_collection self))) by lia.
    apply list_getitem_nat. by rewrite list_lookup_middle.
  - apply list_getitem_last.
  - intros key.
    rewrite (cpt_named_ext _ (cpt_store self))
      by (intros c; apply force_timeorder_frame).
    apply cpt_named_snoc.
Qed.

(** X14.  [add_cpt] changes nothing but the time order of the stored CPTs:
    every CPT keeps its name and its other fields, a CPT that is not in
    the collection is left as it is, and the ids handed out before still
    find the same CPTs. *)
Theorem add_cpt_frame (cpt : loc) self :
  (∀ c, cptname (cpt_store (add_cpt cpt self).1 c)
        = cptname (cpt_store self c)
        ∧ cpt_other (cpt_store (add_cpt cpt self).1 c)
          = cpt_other (cpt_store self c)
        ∧ (c ∉ cpt_collection self →
           cpt_store (add_cpt cpt self).1 c = cpt_store self c))
  ∧ ∀ i, (0 ≤ i < Z.of_nat (length (cpt_collection self)))%Z →
      CPTList_getitem (add_cpt cpt self).1 (KInt i)
      = CPTList_getitem self (KInt i).
Proof.
  unfold add_cpt, CPTList_getitem. cbn [fst snd cpt_collection cpt_store].
  split.
  - intros c. apply force_timeorder_frame.
  - intros i Hi. by apply list_getitem_app_l.
Qed.

End cpts_more.

(** ** [Profiles]: what [add_profile_if_unique] keeps *)

Section profiles_more.
Import DFoundations.
Context {float Other : Type}.
Implicit Types (self : @Profiles float Other) (p : loc).

(** The store after the loop, whatever its outcome: the visited profiles
    have the level of the new one and nothing else has changed. *)
Lemma add_profile_loop_store p (todo : list loc)
    (pstore : loc → @Profile float Other) :
  ∃ visited : list loc,
    visited ⊆ todo
    ∧ ∀ l, (add_profile_loop p todo pstore).1 l
           = if decide (l ∈ visited)
             then set_excavation_level (excavation_level (pstore p)) (pstore l)
             else pstore l.
Proof.
  pose proof (add_profile_loop_spec p todo pstore) as Hspec.
  destruct (list_find _ todo) as [[k m]|].
  - exists (take (S k) todo). split; [apply subseteq_take | apply Hspec].
  - exists todo. split; [done | apply Hspec].
Qed.

Lemma add_profile_store self p :
  profile_store (add_profile_if_unique p self).1
  = (add_profile_loop p (profiles self) (profile_store self)).1.
Proof.
  unfold add_profile_if_unique.
  by destruct (add_profile_loop p (profiles self) (profile_store self))
    as [store [[]|e]].
Qed.

(** The names are not assigned to. *)
Lemma add_profile_name self p (l : loc) :
  name (profile_store (add_profile_if_unique p self).1 l)
  = name (profile_store self l).
Proof.
  rewrite add_profile_store.
  destruct (add_profile_loop_store p (profiles self) (profile_store self))
    as (visited & _ & Hstore).
  rewrite Hstore. by case_decide.
Qed.

(** X15.  [add_profile_if_unique] assigns [excavation_level] and nothing
    else, whether it returns or raises: every profile keeps its name and
    its other fields, and a profile that is not stored is left as it
    is. *)
Theorem add_profile_frame self p (l : loc) :
  name (profile_store (add_profile_if_unique p self).1 l)
  = name (profile_store self l)
  ∧ profile_other (profile_store (add_profile_if_unique p self).1 l)
    = profile_other (profile_store self l)
  ∧ (l ∉ profiles self →
     profile_store (add_profile_if_unique p self).1 l = profile_store self l).
Proof.
  rewrite add_profile_store.
  destruct (add_profile_loop_store p (profiles self) (profile_store self))
    as (visited & Hsub & Hstore).
  rewrite Hstore. case_decide; [|done].
  split_and!; [done..|]. intros Hl. destruct Hl. by apply Hsub.
Qed.

(** X16.  [add_profile_if_unique] keeps the names of the stored profiles
    pairwise distinct, whether it returns or raises. *)
Theorem add_profile_keeps_names_unique self p :
  NoDup ((λ l, name (profile_store self l)) <$> profiles self) →
  NoDup ((λ l, name (profile_store (add_profile_if_unique p self).1 l))
           <$> profiles (add_profile_if_unique p self).1).
Proof.
  intros Hnd.
  assert (∀ l, name (profile_store (add_profile_if_unique p self).1 l)
               = name (profile_store self l)) as Hname
    by (intros l; apply add_profile_name).
  rewrite (list_fmap_ext _ (λ l, name (profile_store self l)))
    by (intros; apply Hname).
  pose proof (add_profile_loop_spec p (profiles self) (profile_store self))
    as Hspec.
  unfold add_profile_if_unique.
  destruct (add_profile_loop p (profiles self) (profile_store self))
    as [store r].
  destruct (list_find _ (profiles self)) as [[k m]|] eqn:Hfind;
    simpl in Hspec; destruct Hspec as [-> _]; simpl; [done|].
  rewrite fmap_app. apply NoDup_app. split_and!; [done| |apply NoDup_singleton].
  intros x (l & -> & Hl)%list_elem_of_fmap Hx%list_elem_of_singleton.
  apply list_find_None in Hfind. rewrite Forall_forall in Hfind.
  by apply (Hfind l Hl).
Qed.

(** What the call does, by the first stored profile with the name of the
    new one. *)
Lemma add_profile_outcome self p :
  match list_find (λ l, name (profile_store self p)
                        = name (profile_store self l)) (profiles self) with
  | Some (k, _) =>
      (add_profile_if_unique p self).2
      = Raise (NameError ("profile with name " +:+ name (profile_store self p)
                          +:+ " already exists."))
      ∧ profiles (add_profile_if_unique p self).1 = profiles self
      ∧ ∀ l, profile_store (add_profile_if_unique p self).1 l
             = if decide (l ∈ take (S k) (profiles self))
               then set_excavation_level
                      (excavation_level (profile_store self p))
                      (profile_store self l)
               else profile_store self l
  | None =>
      (add_profile_if_unique p self).2 = Ok p
      ∧ profiles (add_profile_if_unique p self).1 = profiles self ++ [p]
  end.
Proof.
  pose proof (add_profile_loop_spec p (profiles self) (profile_store self))
    as Hspec.
  unfold add_profile_if_unique.
  destruct (add_profile_loop p (profiles self) (profile_store self))
    as [store r].
  destruct (list_find _ (profiles self)) as [[k m]|];
    simpl in Hspec; destruct Hspec as [-> Hstore]; simpl; done.
Qed.

(** X17.  A call that has raised can be repeated without further effect:
    the second call raises the same error and leaves every profile and the
    list as the first call left them. *)
Theorem add_profile_retry self p (e : exn) :
  (add_profile_if_unique p self).2 = Raise e →
  (add_profile_if_unique p (add_profile_if_unique p self).1).2 = Raise e
  ∧ profiles (add_profile_if_unique p (add_profile_if_unique p self).1).1
    = profiles self
  ∧ ∀ l, profile_store
           (add_profile_if_unique p (add_profile_if_unique p self).1).1 l
         = profile_store (add_profile_if_unique p self).1 l.
Proof.
  intros Hraise.
  assert (∀ l, name (profile_store (add_profile_if_unique p self).1 l)
               = name (profile_store self l)) as Hname
    by (intros l; apply add_profile_name).
  pose proof (add_profile_outcome self p) as H1.
  pose proof (add_profile_outcome (add_profile_if_unique p self).1 p) as H2.
  rewrite (list_find_ext _ (λ l, name (profile_store self p)
                                 = name (profile_store self l)))
    in H2 by (intros x; by rewrite !Hname).
  destruct (list_find _ (profiles self)) as [[k m]|] eqn:Hfind.
  - destruct H1 as (Hr1 & Hp1 & Hs1).
    rewrite Hp1, Hfind in H2. destruct H2 as (Hr2 & Hp2 & Hs2).
    rewrite Hr1 in Hraise. injection Hraise as <-.
    split_and!; [by rewrite Hr2, Hname | done |].
    intros l. rewrite Hs2, !Hs1.
    destruct (decide (p ∈ take (S k) (profiles self)));
      destruct (decide (l ∈ take (S k) (profiles self))); done.
  - destruct H1 as [Hr1 _]. rewrite Hr1 in Hraise. discriminate Hraise.
Qed.

End profiles_more.

Lemma add_profile_keeps_names_unique_witness :
  NoDup ((λ l, DFoundations.name
                 (DFoundations.profile_store
                    (DFoundations.add_profile_if_unique 3
                       SampleObjects.stored_profiles).1 l))
           <$> DFoundations.profiles
                 (DFoundations.add_profile_if_unique 3
                    SampleObjects.stored_profiles).1).
Proof.
  apply (add_profile_keeps_names_unique SampleObjects.stored_profiles 3).
  vm_compute. repeat constructor; intros Hin;
    repeat (apply elem_of_cons in Hin as [Hin|Hin]; [discriminate Hin|]);
    by apply elem_of_nil in Hin.
Defined.

Lemma add_profile_retry_witness :
  (DFoundations.add_profile_if_unique 3
     (DFoundations.add_profile_if_unique 3 SampleObjects.stored_profiles).1).2
  = Raise (NameError "profile with name b already exists.").
Proof.
  destruct (add_profile_retry SampleObjects.stored_profiles 3
              (NameError "profile with name b already exists."))
    as (Hraise & _).
  - vm_compute. reflexivity.
  - exact Hraise.
Defined.

(** ** [CalculationOptions.__init__]: what the toggles leave alone *)

Section options_more.
Import DFoundations.
Variable validate : field_info → value → result value.
Variable extra : list (string * value) → result (list (string * value)).

(** Every collected toggle is a declared field and comes from a keyword
    argument that is not [None]. *)
Lemma foldl_record_toggle_origin (kwargs toggles : list (string * value))
    (k : string) :
  k ∈ (foldl record_toggle toggles kwargs).*1 →
  k ∈ toggles.*1
  ∨ ∃ field value,
      (field, value) ∈ kwargs ∧ value ≠ VNone
      ∧ find_toggle field = k ∧ k ∈ model_fields.
Proof.
  revert toggles. induction kwargs as [|[field value] kwargs IH];
    intros toggles; simpl.
  - by left.
  - intros [Hk|(f & v & Hin & ?)]%IH.
    + destruct (decide (value = VNone)); [by left|].
      destruct (decide (find_toggle field ∈ model_fields)); [|by left].
      fold (PyDict.keys (PyDict.set (find_toggle field) (VBool TRUE) toggles))
        in Hk.
      rewrite dict_keys_set in Hk.
      destruct (decide (find_toggle field ∈ PyDict.keys toggles));
        [by left|].
      apply elem_of_app in Hk as [Hk|Hk%list_elem_of_singleton]; [by left|].
      right. exists field, value. subst k.
      split_and!; [apply list_elem_of_here | done..].
    + right. exists f, v. split; [by apply list_elem_of_further | done].
Qed.

Lemma collect_toggles_origin (kwargs : list (string * value)) (k : string) :
  k ∈ (collect_toggles kwargs).*1 →
  ∃ field value,
    (field, value) ∈ kwargs ∧ value ≠ VNone
    ∧ find_toggle field = k ∧ k ∈ model_fields.
Proof.
  intros [Hk|Hk]%foldl_record_toggle_origin; [|done].
  by apply elem_of_nil in Hk.
Qed.

(** Setting a declared field changes nothing among the entries that name
    no declared field. *)
Lemma filter_set_declared (fields : list string) (k : string) (v : value)
    (d : list (string * value)) :
  k ∈ fields →
  filter (λ kv, kv.1 ∉ fields) (PyDict.set k v d)
  = filter (λ kv, kv.1 ∉ fields) d.
Proof.
  intros Hk. induction d as [|[k' v'] d IH]; simpl.
  - by rewrite filter_cons_False by (simpl; tauto).
  - destruct (decide (k' = k)) as [->|Hne].
    + by rewrite !filter_cons_False by (simpl; tauto).
    + rewrite !filter_cons. simpl. by rewrite IH.
Qed.

Lemma filter_update_declared (fields : list string)
    (d other : list (string * value)) :
  (∀ k, k ∈ other.*1 → k ∈ fields) →
  filter (λ kv, kv.1 ∉ fields) (PyDict.update d other)
  = filter (λ kv, kv.1 ∉ fields) d.
Proof.
  unfold PyDict.update. revert d.
  induction other as [|[k v] other IH]; intros d Hall; csimpl in *; [done|].
  rewrite IH by (intros; apply Hall; by apply list_elem_of_further).
  apply filter_set_declared, Hall, list_elem_of_here.
Qed.

(** X18.  A declared field that is the toggle of no keyword argument
    other than [None] is constructed as the base class alone constructs
    it: from the validated keyword argument of its name, as the caller
    gave it, or else from its validated default. *)
Theorem init_passes_through (kwargs obj : list (string * value))
    (k : string) :
  CalculationOptions_init validate extra kwargs = Ok obj →
  k ∈ model_fields →
  (∀ field value,
     (field, value) ∈ kwargs → find_toggle field = k → value = VNone) →
  ∃ info v,
    info ∈ CalculationOptions_fields ∧ field_name info = k
    ∧ validate info (default (field_default info) (PyDict.get k kwargs))
      = Ok v
    ∧ PyDict.get k obj = Some v.
Proof.
  intros Hobj Hk Hnone.
  unfold CalculationOptions_init, BaseModel_init in Hobj.
  apply bind_Ok in Hobj as (declared & Hdeclared & Hobj).
  apply bind_Ok in Hobj as (others & _ & [= <-]).
  destruct (validate_fields_get validate _ _ _ k Hdeclared Hk)
    as (info & v & Hinfo & Hname & Hv & Hget).
  exists info, v. split_and!; [done..| |by apply dict_get_app_l].
  rewrite dict_get_update_notin in Hv; [done|].
  intros (field & value & Hin & Hvalue & Hfield & _)%collect_toggles_origin.
  by apply Hvalue, (Hnone field).
Qed.

(** X19.  When every keyword argument is [None] or has no declared
    toggle, the constructor does what the constructor of the base class
    does with the same keyword arguments. *)
Theorem init_without_toggles (kwargs : list (string * value)) :
  (∀ field value,
     (field, value) ∈ kwargs →
     value = VNone ∨ find_toggle field ∉ model_fields) →
  CalculationOptions_init validate extra kwargs
  = BaseModel_init validate extra CalculationOptions_fields kwargs.
Proof.
  intros Hall. unfold CalculationOptions_init.
  assert (collect_toggles kwargs = []) as ->; [|done].
  destruct (collect_toggles kwargs) as [|[k v] toggles] eqn:Htoggles; [done|].
  destruct (collect_toggles_origin kwargs k)
    as (field & value & Hin & Hvalue & Hfield & Hk).
  - rewrite Htoggles. apply list_elem_of_here.
  - subst k. by destruct (Hall field value Hin).
Qed.

(** X20.  The toggles name declared fields only: the keyword arguments
    that name no declared field reach the base class as the caller gave
    them, in their order. *)
Theorem init_extra_untouched (kwargs : list (string * value)) :
  CalculationOptions_init validate extra kwargs
  = (obj ← validate_fields validate CalculationOptions_fields
             (PyDict.update kwargs (collect_toggles kwargs));
     others ← extra (filter (λ kv, kv.1 ∉ model_fields) kwargs);
     Ok (obj ++ others)).
Proof.
  unfold CalculationOptions_init, BaseModel_init.
  fold model_fields.
  rewrite filter_update_declared; [done|].
  by intros k (? & ? & _ & _ & _ & ?)%collect_toggles_origin.
Qed.

End options_more.

Lemma init_passes_through_witness :
  ∃ info v,
    info ∈ DFoundations.CalculationOptions_fields
    ∧ DFoundations.field_name info = "factor_xi3"
    ∧ DFoundations.validate_strict info
        (default (DFoundations.field_default info)
           (PyDict.get "factor_xi3" SampleOptions.kwargs)) = Ok v
    ∧ PyDict.get "factor_xi3" SampleOptions.constructed = Some v.
Proof.
  apply (init_passes_through DFoundations.validate_strict
           DFoundations.extra_forbid SampleOptions.kwargs).
  - vm_compute. reflexivity.
  - vm_compute. repeat constructor.
  - intros field value Hin Htoggle.
    repeat (apply elem_of_cons in Hin as [[= -> ->]|Hin];
            [vm_compute in Htoggle; discriminate Htoggle|]).
    by apply elem_of_nil in Hin.
Defined.

Lemma init_without_toggles_witness :
  DFoundations.CalculationOptions_init DFoundations.validate_strict
    DFoundations.extra_forbid
    [("factor_xi3", DFoundations.VNone); ("unknown", DFoundations.VInt 1)]
  = DFoundations.BaseModel_init DFoundations.validate_strict
      DFoundations.extra_forbid DFoundations.CalculationOptions_fields
      [("factor_xi3", DFoundations.VNone); ("unknown", DFoundations.VInt 1)].
Proof.
  apply init_without_toggles. intros field value Hin.
  apply elem_of_cons in Hin as [[= -> ->]|Hin]; [by left|].
  apply elem_of_cons in Hin as [[= -> ->]|Hin];
    [|by apply elem_of_nil in Hin].
  right. vm_compute. intros Hin.
  repeat (apply elem_of_cons in Hin as [Hin|Hin]; [discriminate Hin|]).
  by apply elem_of_nil in Hin.
Defined.

(** ** [CalculationType.__init__]: which sub types give which main type *)

Section calculationtype_more.
Import DFoundations.

(** X21.  The constructed main type is [VERIFICATION_DESIGN] exactly when
    the caller gave one of the two verification sub types; every other sub
    type, [UNSUPPORTED] and the default among them, gives
    [PRELIMINARY_DESIGN]. *)
Theorem CalculationType_init_verification
    (main : option MainCalculationType.t) (sub : option SubCalculationType.t) :
  main_calculationtype (CalculationType_init main sub)
  = MainCalculationType.VERIFICATION_DESIGN
  ↔ sub = Some SubCalculationType.VERIFICATION_DESIGN
    ∨ sub = Some SubCalculationType.VERIFICATION_COMPLETE.
Proof.
  destruct sub as [[]|]; vm_compute; split;
    first [ discriminate | by intros [|] | by auto ].
Qed.

(** X22.  Constructing again from the two fields of a constructed object
    gives the same object: the constructor has nothing left to correct. *)
Theorem CalculationType_init_again
    (main : option MainCalculationType.t) (sub : option SubCalculationType.t) :
  CalculationType_init
    (Some (main_calculationtype (CalculationType_init main sub)))
    (Some (sub_calculationtype (CalculationType_init main sub)))
  = CalculationType_init main sub.
Proof. destruct main as [[]|], sub as [[]|]; reflexivity. Qed.

End calculationtype_more.
